(** * Command-line parsing of the configuration core (src/config/cmdline.c)

    A shallow embedding of [__config_LoadCmdLine]: the construction of the
    getopt tables from the module registry, the scan of argv, and the
    per-option resolution, coercion and store write, under the two error
    policies selected by [b_ignore_errors]. *)

From Stdlib Require Import ZArith List String Ascii Bool Lia.
Import ListNotations.
Open Scope string_scope.
Open Scope list_scope.
Open Scope Z_scope.

(* ================================================================== *)
(** ** C integers and the libc text-to-integer conversions            *)
(* ================================================================== *)

(** [int] is 32 bits wide: a conversion to [int] keeps the low 32 bits, and
    arithmetic on [int] is written with this wrap-around. *)
Definition to_int (z : Z) : Z := (z + 2147483648) mod 4294967296 - 2147483648.

(** Limits of [long] (limits.h is a system header; the LP64 values). *)
Definition LONG_MAX : Z := 9223372036854775807.
Definition LONG_MIN : Z := -9223372036854775808.

Definition code (c : ascii) : Z := Z.of_nat (nat_of_ascii c).

Definition isspace (c : ascii) : bool :=
  (code c =? 32) || ((9 <=? code c) && (code c <=? 13)).

Fixpoint skip_space (s : string) : string :=
  match s with
  | String c r => if isspace c then skip_space r else s
  | EmptyString => s
  end.

(** Value of a character as a digit, letters counting from ten. *)
Definition digit_val (c : ascii) : option Z :=
  let n := code c in
  if (48 <=? n) && (n <=? 57) then Some (n - 48)
  else if (97 <=? n) && (n <=? 122) then Some (n - 87)
  else if (65 <=? n) && (n <=? 90) then Some (n - 55)
  else None.

(** The longest run of digits valid in [base], accumulated from [acc]. *)
Fixpoint strtol_digits (base : Z) (s : string) (acc : Z) : Z :=
  match s with
  | String c r =>
      match digit_val c with
      | Some d => if d <? base then strtol_digits base r (acc * base + d) else acc
      | None => acc
      end
  | EmptyString => acc
  end.

(** Base selection of [strtol]: with base 0 a leading 0x or 0X selects
    sixteen, another leading 0 selects eight, anything else ten; with base
    sixteen the 0x prefix is optional. *)
Definition strtol_prefix (s : string) (base : Z) : Z * string :=
  match s with
  | String "0" (String x r) =>
      if ((code x =? 120) || (code x =? 88)) && ((base =? 0) || (base =? 16))
      then (16, r)
      else if base =? 0 then (8, s) else (base, s)
  | String "0" EmptyString => if base =? 0 then (8, s) else (base, s)
  | _ => if base =? 0 then (10, s) else (base, s)
  end.

(** [strtol(nptr, NULL, base)]: leading white space, an optional sign, the
    base prefix, then digits; no digit at all yields zero and a value out of
    range is clamped to the limits of [long]. *)
Definition strtol (nptr : string) (base : Z) : Z :=
  let s := skip_space nptr in
  let '(neg, s1) :=
    match s with
    | String "-" r => (true, r)
    | String "+" r => (false, r)
    | _ => (false, s)
    end in
  let '(b, s2) := strtol_prefix s1 base in
  let v := strtol_digits b s2 0 in
  if neg then Z.max LONG_MIN (- v) else Z.min LONG_MAX v.

(** [atoi(s)] is [(int) strtol(s, NULL, 10)]. *)
Definition atoi (s : string) : Z := to_int (strtol s 10).

(* ================================================================== *)
(** ** The option registry                                            *)
(* ================================================================== *)

(** Modelled from the spec: the header that declares the [CONFIG_ITEM_*] and
    [CONFIG_HINT] constants is not part of the sources at hand; the kinds are
    the enumeration of the data model, and the test [i_type & CONFIG_HINT]
    is membership in the [CONFIG_HINT] kind. *)
Inductive config_type : Set :=
| CONFIG_ITEM_STRING
| CONFIG_ITEM_PASSWORD
| CONFIG_ITEM_FILE
| CONFIG_ITEM_DIRECTORY
| CONFIG_ITEM_MODULE
| CONFIG_ITEM_MODULE_LIST
| CONFIG_ITEM_MODULE_LIST_CAT
| CONFIG_ITEM_MODULE_CAT
| CONFIG_ITEM_INTEGER
| CONFIG_ITEM_FLOAT
| CONFIG_ITEM_KEY
| CONFIG_ITEM_BOOL
| CONFIG_HINT.

Definition is_hint (t : config_type) : bool :=
  match t with CONFIG_HINT => true | _ => false end.

Definition is_bool (t : config_type) : bool :=
  match t with CONFIG_ITEM_BOOL => true | _ => false end.

(** One option descriptor. [i_short] is the NUL character when the option
    has no short flag; [psz_current] is the name of the replacement of a
    deprecated option and [b_strict] marks the option as removed. *)
Record module_config_t : Set := {
  psz_name : string;
  i_short : ascii;
  i_type : config_type;
  psz_current : option string;
  b_strict : bool
}.

(** A module of the registry: the two counters kept by the module system and
    the array [p_config] of [confsize] descriptors. *)
Record module_t : Set := {
  i_config_items : nat;
  i_bool_items : nat;
  p_config : list module_config_t
}.

Definition confsize (m : module_t) : nat := List.length (p_config m).

(** The counters of a module agree with its descriptors: this is what the
    module system maintains when descriptors are registered. *)
Definition module_wf (m : module_t) : Prop :=
  i_config_items m = List.length (filter (fun d => negb (is_hint (i_type d))) (p_config m)) /\
  i_bool_items m = List.length (filter (fun d => is_bool (i_type d)) (p_config m)).

(** Modelled from the spec: [config_FindConfig] lives in the configuration
    core, outside the sources at hand. It is the exact-name lookup against
    the live registry; a resolved descriptor is never a hint. *)
Fixpoint find_item (name : string) (l : list module_config_t) : option module_config_t :=
  match l with
  | [] => None
  | d :: r =>
      if negb (is_hint (i_type d)) && String.eqb name (psz_name d)
      then Some d else find_item name r
  end.

Definition config_FindConfig (p_list : list module_t) (name : string)
  : option module_config_t :=
  find_item name (flat_map p_config p_list).

(* ================================================================== *)
(** ** The host: allocation, key translation, program name            *)
(* ================================================================== *)

(** What the call takes from its surroundings: whether the n-th allocation
    of the call succeeds ([malloc], [strdup]), the key-name translator
    [ConfigStringToKey], which the parser treats as opaque, and the object
    name printed in diagnostics. *)
Record host_t : Type := {
  malloc_ok : nat -> bool;
  ConfigStringToKey : option string -> Z;
  psz_object_name : string
}.

(* ================================================================== *)
(** ** Generation of the getopt tables                                *)
(* ================================================================== *)

Definition no_argument : Z := 0.
Definition required_argument : Z := 1.

(** [struct option] of getopt.h. Every generated entry points its [flag]
    member at the local variable [flag], so only [val] is recorded;
    [o_name = None] is the NULL name of the closing entry. *)
Record struct_option : Set := {
  o_name : option string;
  has_arg : Z;
  val : Z
}.

Definition zero_option : struct_option :=
  {| o_name := None; has_arg := 0; val := 0 |}.

(** The tables under construction: the filled slots of [p_longopts] (their
    number is [i_index]), the characters written to [psz_shortopts] (their
    number is [i_shortopts]), the direct-address table [pp_shortopts], and
    the number of allocations requested so far. *)
Record tables : Type := {
  p_longopts : list struct_option;
  psz_shortopts : string;
  pp_shortopts : Z -> option module_config_t;
  n_alloc : nat
}.

Definition empty_tables (n : nat) : tables :=
  {| p_longopts := []; psz_shortopts := ""; pp_shortopts := fun _ => None;
     n_alloc := n |}.

Definition request (t : tables) : tables :=
  {| p_longopts := p_longopts t; psz_shortopts := psz_shortopts t;
     pp_shortopts := pp_shortopts t; n_alloc := S (n_alloc t) |}.

Definition push_long (e : struct_option) (t : tables) : tables :=
  {| p_longopts := p_longopts t ++ [e]; psz_shortopts := psz_shortopts t;
     pp_shortopts := pp_shortopts t; n_alloc := n_alloc t |}.

(** If the item also has a short option, add it: the flag is recorded in
    the direct-address table and written to the packed string, followed by
    a colon unless the item is a boolean, and by one more colon when the
    flag is [v]. *)
Definition add_short (p_item : module_config_t) (t : tables) : tables :=
  if code (i_short p_item) =? 0 then t
  else
    let s0 := (psz_shortopts t ++ String (i_short p_item) "")%string in
    let s1 :=
      if negb (is_bool (i_type p_item)) then
        let s := (s0 ++ ":")%string in
        if Ascii.eqb (i_short p_item) "v" then (s ++ ":")%string else s
      else s0 in
    {| p_longopts := p_longopts t;
       psz_shortopts := s1;
       pp_shortopts := fun i => if i =? code (i_short p_item)
                                then Some p_item else pp_shortopts t i;
       n_alloc := n_alloc t |}.

(** One pass of the inner loop over the descriptors of a module. A failed
    name allocation leaves the iteration ([continue]) with what was added
    before it. *)
Definition add_item (alloc_ok : nat -> bool) (p_item : module_config_t) (t : tables)
  : tables :=
  if is_hint (i_type p_item) then t
  else if negb (alloc_ok (n_alloc t)) then request t
  else
    let t1 :=
      push_long {| o_name := Some (psz_name p_item);
                   has_arg := if is_bool (i_type p_item)
                              then no_argument else required_argument;
                   val := 0 |} (request t) in
    if is_bool (i_type p_item) then
      if negb (alloc_ok (n_alloc t1)) then request t1
      else
        let t2 :=
          push_long {| o_name := Some ("no" ++ psz_name p_item)%string;
                       has_arg := no_argument; val := 1 |} (request t1) in
        if negb (alloc_ok (n_alloc t2)) then request t2
        else
          let t3 :=
            push_long {| o_name := Some ("no-" ++ psz_name p_item)%string;
                         has_arg := no_argument; val := 1 |} (request t2) in
          add_short p_item t3
    else add_short p_item t1.

Definition add_module (alloc_ok : nat -> bool) (p_parser : module_t) (t : tables)
  : tables :=
  if (i_config_items p_parser =? 0)%nat then t
  else fold_left (fun acc p_item => add_item alloc_ok p_item acc) (p_config p_parser) t.

Definition fill_tables (alloc_ok : nat -> bool) (p_list : list module_t) (t : tables)
  : tables :=
  fold_left (fun acc p_parser => add_module alloc_ok p_parser acc) p_list t.

(** Close the longopts structure: the slot at [i_index] is zeroed. *)
Definition close_tables (t : tables) : tables := push_long zero_option t.

(** The number of options the two arrays are sized for. *)
Definition i_opts (p_list : list module_t) : nat :=
  fold_left (fun n p_parser => (n + (i_config_items p_parser
                                     + 2 * i_bool_items p_parser))%nat)
            p_list 0%nat.

(** The entries in front of the closing one. *)
Fixpoint live_entries (l : list struct_option) : list struct_option :=
  match l with
  | [] => []
  | e :: r => match o_name e with
              | Some _ => e :: live_entries r
              | None => []
              end
  end.

(* ================================================================== *)
(** ** The scan of argv                                               *)
(* ================================================================== *)

(** What one call of [getopt_long] leaves behind: its return value, the
    variables it writes ([optarg], [optind], [optopt], the long index
    [i_index], and [flag] through the pointer of the matched entry), and the
    scanned array as that call left it. *)
Record getopt_call : Set := {
  i_cmd : Z;
  optarg : option string;
  optind : nat;
  optopt : Z;
  i_index : nat;
  flag : Z;
  scanned : list string
}.

Inductive arg_mode : Set := NoArg | RequiredArg | OptionalArg.

(** The first occurrence of a flag in the packed string decides its
    argument mode; a colon is never a flag. *)
Fixpoint short_lookup (c : ascii) (spec : string) : option arg_mode :=
  match spec with
  | EmptyString => None
  | String x r =>
      if Ascii.eqb x c && negb (Ascii.eqb c ":") then
        Some match r with
             | String ":" (String ":" _) => OptionalArg
             | String ":" _ => RequiredArg
             | _ => NoArg
             end
      else short_lookup c r
  end.

(** Exact, case-sensitive match against the long table, up to its closing
    entry. *)
Fixpoint long_lookup (nm : string) (tbl : list struct_option) (i : nat)
  : option (nat * struct_option) :=
  match tbl with
  | [] => None
  | e :: r =>
      match o_name e with
      | None => None
      | Some n => if String.eqb n nm then Some (i, e) else long_lookup nm r (S i)
      end
  end.

(** [--name=value] is cut at the first equals sign. *)
Fixpoint split_eq (s : string) : string * option string :=
  match s with
  | EmptyString => ("", None)
  | String c r =>
      if Ascii.eqb c "=" then ("", Some r)
      else let '(n, a) := split_eq r in (String c n, a)
  end.

Definition is_empty (s : string) : bool :=
  match s with EmptyString => true | _ => false end.

(** The calls that consume one cluster of short options. Each result gives
    the return value, [optarg], [optopt] after the call and the number of
    argv elements the scan has moved past (none while inside the cluster,
    two when the next element was taken as the argument). *)
Fixpoint scan_cluster (spec : string) (chars : string) (next : option string)
    (oo : Z) : list (Z * option string * Z * nat) :=
  match chars with
  | EmptyString => []
  | String c cs =>
      let fin := if is_empty cs then 1%nat else 0%nat in
      match short_lookup c spec with
      | None => (63, None, code c, fin) :: scan_cluster spec cs next (code c)
      | Some NoArg => (code c, None, oo, fin) :: scan_cluster spec cs next oo
      | Some OptionalArg =>
          [(code c, if is_empty cs then None else Some cs, oo, 1%nat)]
      | Some RequiredArg =>
          if negb (is_empty cs) then [(code c, Some cs, oo, 1%nat)]
          else match next with
               | Some a => [(code c, Some a, oo, 2%nat)]
               | None => [(63, None, code c, 1%nat)]
               end
      end
  end.

(** The single call that consumes a long option [--body]. *)
Definition scan_long (tbl : list struct_option) (body : string)
    (next : option string) (oo : Z) (li : nat) (fl : Z)
  : Z * option string * Z * nat * nat * Z :=
  let '(nm, a) := split_eq body in
  match long_lookup nm tbl 0 with
  | None => (63, None, 0, 1%nat, li, fl)
  | Some (i, e) =>
      match a with
      | Some v =>
          if has_arg e =? 0 then (63, None, 0, 1%nat, li, fl)
          else (0, Some v, oo, 1%nat, i, val e)
      | None =>
          if has_arg e =? 1 then
            match next with
            | Some v => (0, Some v, oo, 2%nat, i, val e)
            | None => (63, None, 0, 1%nat, li, fl)
            end
          else (0, None, oo, 1%nat, i, val e)
      end
  end.

Definition last_optopt (l : list (Z * option string * Z * nat)) (oo : Z) : Z :=
  match rev l with
  | (_, _, o, _) :: _ => o
  | [] => oo
  end.

Definition last_moved (l : list (Z * option string * Z * nat)) : nat :=
  match rev l with
  | (_, _, _, n) :: _ => n
  | [] => 1%nat
  end.

(** Modelled from the spec: [getopt_long] is the scanner of the C library
    (or the copy under extras/), outside the sources at hand. This is the
    left-to-right scan of the tokenizer contract: exact long names with
    [--name], [--name=value] and [--name value]; short flags with
    clustering, adjacent or next-element required arguments and adjacent
    optional ones; [?] for whatever matches neither table, with [optopt]
    the flag character or zero for a long token; a lone [--] ends the scan.
    The result is the sequence of calls that return something else than -1,
    together with the array as the last call leaves it, the non-option
    elements moved behind the options. Each call first moves the options of
    the previous calls in front of the non-options skipped so far.

    [rest] is what remains to be scanned, [skip] tells that its head was
    taken as the argument of the previous option, [done] and [nonopts] are
    the option and non-option elements already passed. *)
Fixpoint getopt_scan (spec : string) (tbl : list struct_option) (argv0 : string)
    (rest : list string) (skip : bool) (done nonopts : list string)
    (oo : Z) (li : nat) (fl : Z) : list getopt_call * list string :=
  match rest with
  | [] => ([], argv0 :: done ++ nonopts)
  | t :: r =>
      if skip then getopt_scan spec tbl argv0 r false done nonopts oo li fl
      else
        let here := (1 + List.length done + List.length nonopts)%nat in
        let snap := argv0 :: done ++ nonopts ++ t :: r in
        let next := match r with a :: _ => Some a | [] => None end in
        let passed (n : nat) :=
          match n, r with
          | 2%nat, a :: _ => done ++ [t; a]
          | _, _ => done ++ [t]
          end in
        match t with
        | String "-" (String "-" EmptyString) =>
            ([], argv0 :: done ++ [t] ++ nonopts ++ r)
        | String "-" (String "-" body) =>
            let '(ret, arg, oo', n, li', fl') := scan_long tbl body next oo li fl in
            let '(evs, fin) :=
              getopt_scan spec tbl argv0 r (Nat.eqb n 2) (passed n) nonopts
                          oo' li' fl' in
            ({| i_cmd := ret; optarg := arg; optind := (here + n)%nat;
                optopt := oo'; i_index := li'; flag := fl';
                scanned := snap |} :: evs, fin)
        | String "-" (String c cs) =>
            let raw := scan_cluster spec (String c cs) next oo in
            let n := last_moved raw in
            let '(evs, fin) :=
              getopt_scan spec tbl argv0 r (Nat.eqb n 2) (passed n) nonopts
                          (last_optopt raw oo) li fl in
            (map (fun x : Z * option string * Z * nat =>
                    let '(ret, arg, o, k) := x in
                    {| i_cmd := ret; optarg := arg; optind := (here + k)%nat;
                       optopt := o; i_index := li; flag := fl;
                       scanned := snap |}) raw ++ evs, fin)
        | _ => getopt_scan spec tbl argv0 r false done (nonopts ++ [t]) oo li fl
        end
  end.

(** [optind = 0] makes the scanner start afresh at [argv[1]]; [optopt]
    starts as the question mark. An empty argv is not scanned at all. *)
Definition getopt_long (ppsz_argv : list string) (spec : string)
    (tbl : list struct_option) (i_index0 : nat)
  : list getopt_call * list string :=
  match ppsz_argv with
  | [] => ([], [])
  | argv0 :: rest => getopt_scan spec tbl argv0 rest false [] [] 63 i_index0 0
  end.

(* ================================================================== *)
(** ** The state of one call                                          *)
(* ================================================================== *)

(** Modelled from the spec: the configuration store lives outside the
    sources at hand and is consumed through typed put operations keyed by
    option name. It is observed as the sequence of puts the call performs;
    [config_PutFloat] records the text handed to [atof]. *)
Inductive put_call : Set :=
| config_PutPsz (name : string) (value : option string)
| config_PutInt (name : string) (value : Z)
| config_PutFloat (name : string) (text : string).

Inductive output : Set :=
| msg_Err (text : string)
| stderr (text : string).

(** The two arrays of argument pointers: the one of the caller and the
    duplicate made when errors are ignored. [ppsz_argv] designates one of
    them. *)
Inductive argv_ref : Set := CallerArray | PrivateCopy.

Record memory : Set := {
  caller_array : list string;
  private_copy : option (list string)
}.

Definition load_argv (p : argv_ref) (m : memory) : list string :=
  match p with
  | CallerArray => caller_array m
  | PrivateCopy => match private_copy m with Some l => l | None => [] end
  end.

Definition store_argv (p : argv_ref) (l : list string) (m : memory) : memory :=
  match p with
  | CallerArray => {| caller_array := l; private_copy := private_copy m |}
  | PrivateCopy => {| caller_array := caller_array m; private_copy := Some l |}
  end.

Definition free_copy (m : memory) : memory :=
  {| caller_array := caller_array m; private_copy := None |}.

Record parse_state : Set := {
  i_verbose : Z;
  puts : list put_call;
  log : list output;
  mem : memory
}.

Definition put (p : put_call) (st : parse_state) : parse_state :=
  {| i_verbose := i_verbose st; puts := puts st ++ [p]; log := log st;
     mem := mem st |}.

Definition print (l : list output) (st : parse_state) : parse_state :=
  {| i_verbose := i_verbose st; puts := puts st; log := log st ++ l;
     mem := mem st |}.

Definition set_verbose (v : Z) (st : parse_state) : parse_state :=
  {| i_verbose := v; puts := puts st; log := log st; mem := mem st |}.

Definition set_mem (m : memory) (st : parse_state) : parse_state :=
  {| i_verbose := i_verbose st; puts := puts st; log := log st; mem := m |}.

(** How one iteration of the parsing loop ends: with [continue] or at the
    end of the body, with [return], or in a dereference of a null pointer. *)
Inductive outcome : Set :=
| Continue (st : parse_state)
| Return (status : Z) (st : parse_state)
| Fault (st : parse_state).

Definition state_of (o : outcome) : parse_state :=
  match o with Continue st => st | Return _ st => st | Fault st => st end.

(* ================================================================== *)
(** ** Resolution and coercion                                        *)
(* ================================================================== *)

Definition nl : string := String (ascii_of_nat 10) "".

Fixpoint drop (n : nat) (s : string) : string :=
  match n, s with
  | S k, String _ r => drop k r
  | _, _ => s
  end.

(** Check if we deal with a --nofoo or --no-foo long option. *)
Definition strip_no (name : string) (flag : Z) : string :=
  if flag =? 0 then name
  else match String.get 2 name with
       | Some c => if Ascii.eqb c "-" then drop 3 name else drop 2 name
       | None => drop 2 name
       end.

(** The switch of the long-option branch. *)
Definition long_switch (host : host_t) (p_conf : module_config_t)
    (psz_name : string) (arg : option string) (flag : Z) (st : parse_state)
  : outcome :=
  match i_type p_conf with
  | CONFIG_ITEM_STRING | CONFIG_ITEM_PASSWORD | CONFIG_ITEM_FILE
  | CONFIG_ITEM_DIRECTORY | CONFIG_ITEM_MODULE | CONFIG_ITEM_MODULE_LIST
  | CONFIG_ITEM_MODULE_LIST_CAT | CONFIG_ITEM_MODULE_CAT =>
      Continue (put (config_PutPsz psz_name arg) st)
  | CONFIG_ITEM_INTEGER =>
      match arg with
      | Some a => Continue (put (config_PutInt psz_name (to_int (strtol a 0))) st)
      | None => Fault st
      end
  | CONFIG_ITEM_FLOAT =>
      match arg with
      | Some a => Continue (put (config_PutFloat psz_name a) st)
      | None => Fault st
      end
  | CONFIG_ITEM_KEY =>
      Continue (put (config_PutInt psz_name (ConfigStringToKey host arg)) st)
  | CONFIG_ITEM_BOOL =>
      Continue (put (config_PutInt psz_name (if flag =? 0 then 1 else 0)) st)
  | CONFIG_HINT => Continue st
  end.

(** [while( *optarg == 'v' ) { i_verbose++; optarg++; }] *)
Fixpoint count_v (s : string) (v : Z) : Z :=
  match s with
  | String "v" r => count_v r (to_int (v + 1))
  | _ => v
  end.

(** The verbosity counter after one occurrence of the short flag. *)
Definition bump_verbose (arg : option string) (v : Z) : Z :=
  match arg with
  | Some (String "v" r) => count_v (String "v" r) (to_int (v + 1))
  | Some a => to_int (v + atoi a)
  | None => to_int (v + 1)
  end.

(** The switch of the short-option branch. *)
Definition short_switch (p_short : module_config_t) (cmd : Z)
    (arg : option string) (st : parse_state) : outcome :=
  match i_type p_short with
  | CONFIG_ITEM_STRING | CONFIG_ITEM_PASSWORD | CONFIG_ITEM_FILE
  | CONFIG_ITEM_DIRECTORY | CONFIG_ITEM_MODULE | CONFIG_ITEM_MODULE_CAT
  | CONFIG_ITEM_MODULE_LIST | CONFIG_ITEM_MODULE_LIST_CAT =>
      Continue (put (config_PutPsz (psz_name p_short) arg) st)
  | CONFIG_ITEM_INTEGER =>
      if cmd =? code "v" then
        let v := bump_verbose arg (i_verbose st) in
        Continue (put (config_PutInt (psz_name p_short) v) (set_verbose v st))
      else
        match arg with
        | Some a =>
            Continue (put (config_PutInt (psz_name p_short) (to_int (strtol a 0))) st)
        | None => Fault st
        end
  | CONFIG_ITEM_BOOL =>
      Continue (put (config_PutInt (psz_name p_short) 1) st)
  | _ => Continue st
  end.

Definition warn_removed (p_conf : module_config_t) : list output :=
  [stderr ("Warning: option --" ++ psz_name p_conf ++ " no longer exists." ++ nl)%string].

Definition warn_deprecated (b_ignore_errors : bool) (p_conf : module_config_t)
    (current : string) : list output :=
  [stderr ((if b_ignore_errors then "Warning" else "Error") ++ ": option --"
           ++ psz_name p_conf ++ " is deprecated. Use --" ++ current
           ++ " instead." ++ nl)%string].

Definition unknown_option (host : host_t) (ev : getopt_call) : list output :=
  [stderr (psz_object_name host
           ++ ": unknown option or missing mandatory argument ")%string;
   (if optopt ev =? 0
    then stderr ("`" ++ nth (optind ev - 1) (scanned ev) "" ++ "'" ++ nl)%string
    else stderr ("`-" ++ String (ascii_of_nat (Z.to_nat (optopt ev))) "'" ++ nl)%string);
   stderr ("Try `" ++ psz_object_name host
           ++ " --help' for more information." ++ nl)%string].

(** The long-option branch, entered when [getopt_long] returned zero. The
    result is [None] when the branch falls through to the short-option
    test, which is when [config_FindConfig] finds nothing. *)
Definition long_branch (host : host_t) (p_list : list module_t) (t : tables)
    (b_ignore_errors : bool) (ev : getopt_call) (st : parse_state)
  : option outcome :=
  match nth_error (p_longopts t) (i_index ev) with
  | Some {| o_name := Some entry |} =>
      let psz_name := strip_no entry (flag ev) in
      match config_FindConfig p_list psz_name with
      | Some p_conf =>
          Some
            match psz_current p_conf with
            | Some current =>
                if b_strict p_conf then Continue (print (warn_removed p_conf) st)
                else
                  let st1 := print (warn_deprecated b_ignore_errors p_conf current) st in
                  if negb b_ignore_errors then Return (-1) st1
                  else
                    match config_FindConfig p_list current with
                    | Some p_new =>
                        long_switch host p_new current (optarg ev) (flag ev) st1
                    | None => Fault st1
                    end
            | None => long_switch host p_conf psz_name (optarg ev) (flag ev) st
            end
      | None => None
      end
  | _ => Some (Fault st)
  end.

(** The body of the parsing loop for one result of [getopt_long]. *)
Definition loop_body (host : host_t) (p_list : list module_t) (t : tables)
    (b_ignore_errors : bool) (ev : getopt_call) (st : parse_state) : outcome :=
  match (if i_cmd ev =? 0
         then long_branch host p_list t b_ignore_errors ev st else None) with
  | Some o => o
  | None =>
      match pp_shortopts t (i_cmd ev) with
      | Some p_short => short_switch p_short (i_cmd ev) (optarg ev) st
      | None =>
          if negb b_ignore_errors
          then Return (-1) (print (unknown_option host ev) st)
          else Continue st
      end
  end.

(** The iterations of the parsing loop, one for each call of [getopt_long]
    that returns something else than -1. The array designated by
    [ppsz_argv] stands as that call left it when the body runs. *)
Fixpoint parse_calls (host : host_t) (p_list : list module_t) (t : tables)
    (b_ignore_errors : bool) (ppsz_argv : argv_ref) (evs : list getopt_call)
    (st : parse_state) : outcome :=
  match evs with
  | [] => Continue st
  | ev :: r =>
      let st1 := set_mem (store_argv ppsz_argv (scanned ev) (mem st)) st in
      match loop_body host p_list t b_ignore_errors ev st1 with
      | Continue st2 => parse_calls host p_list t b_ignore_errors ppsz_argv r st2
      | o => o
      end
  end.

(** The parsing loop: it ends when [getopt_long] returns -1, which leaves
    the array [final]. *)
Definition parse_loop (host : host_t) (p_list : list module_t) (t : tables)
    (b_ignore_errors : bool) (ppsz_argv : argv_ref) (evs : list getopt_call)
    (final : list string) (st : parse_state) : outcome :=
  match parse_calls host p_list t b_ignore_errors ppsz_argv evs st with
  | Continue st1 => Continue (set_mem (store_argv ppsz_argv final (mem st1)) st1)
  | o => o
  end.

(* ================================================================== *)
(** ** The whole call                                                 *)
(* ================================================================== *)

Definition out_of_memory (m : memory) : outcome :=
  Return (-1) {| i_verbose := 0; puts := []; log := [msg_Err "out of memory"];
                 mem := m |}.

(** The tables as the parsing loop sees them; [n] is the number of
    allocations requested before the first name. *)
Definition build_tables (alloc_ok : nat -> bool) (p_list : list module_t) (n : nat)
  : tables :=
  close_tables (fill_tables alloc_ok p_list (empty_tables n)).

Definition initial_state (m : memory) : parse_state :=
  {| i_verbose := 0; puts := []; log := []; mem := m |}.

(** [__config_LoadCmdLine] (the build without [__APPLE__]). The allocations
    are numbered in the order the call requests them: the long table, the
    short string, the duplicate of argv when errors are ignored, then the
    names of the entries. *)
Definition config_LoadCmdLine (host : host_t) (p_list : list module_t)
    (argv : list string) (b_ignore_errors : bool) : outcome :=
  let m0 := {| caller_array := argv; private_copy := None |} in
  if negb (malloc_ok host 0) then out_of_memory m0
  else if negb (malloc_ok host 1) then out_of_memory m0
  else if b_ignore_errors && negb (malloc_ok host 2) then out_of_memory m0
  else
    let ppsz_argv := if b_ignore_errors then PrivateCopy else CallerArray in
    let m1 := if b_ignore_errors
              then {| caller_array := argv; private_copy := Some argv |}
              else m0 in
    let t := build_tables (malloc_ok host) p_list
                          (if b_ignore_errors then 3 else 2) in
    let '(evs, final) :=
      getopt_long (load_argv ppsz_argv m1) (psz_shortopts t) (p_longopts t)
                  (List.length (p_longopts t) - 1) in
    match parse_loop host p_list t b_ignore_errors ppsz_argv evs final
            (initial_state m1) with
    | Continue st =>
        Return 0 (if b_ignore_errors then set_mem (free_copy (mem st)) st else st)
    | o => o
    end.

(** The build with [__APPLE__]: when the second argument begins with
    [-psn] (the process serial number handed over by the window server),
    the count behind [pi_argc] is decremented and the call returns at once;
    the array itself is left as it is. The second component is the count
    the caller reads back. *)
Definition config_LoadCmdLine_apple (host : host_t) (p_list : list module_t)
    (argv : list string) (b_ignore_errors : bool) : outcome * nat :=
  match argv with
  | _ :: second :: _ =>
      if String.prefix "-psn" second
      then (Return 0 (initial_state {| caller_array := argv;
                                       private_copy := None |}),
            (List.length argv - 1)%nat)
      else (config_LoadCmdLine host p_list argv b_ignore_errors,
            List.length argv)
  | _ => (config_LoadCmdLine host p_list argv b_ignore_errors, List.length argv)
  end.

Definition status_of (o : outcome) : option Z :=
  match o with Return z _ => Some z | _ => None end.

(* ================================================================== *)
(** ** Specification-side definitions                                 *)
(* ================================================================== *)

Definition non_hint (d : module_config_t) : bool := negb (is_hint (i_type d)).

Definition descriptors (p_list : list module_t) : list module_config_t :=
  flat_map p_config p_list.

Definition countNonHint (p_list : list module_t) : nat :=
  List.length (filter non_hint (descriptors p_list)).

Definition countBool (p_list : list module_t) : nat :=
  List.length (filter (fun d => is_bool (i_type d)) (descriptors p_list)).

(** The registry with its hint descriptors taken out. *)
Definition without_hints (p_list : list module_t) : list module_t :=
  map (fun m => {| i_config_items := i_config_items m;
                   i_bool_items := i_bool_items m;
                   p_config := filter non_hint (p_config m) |}) p_list.

(** The three long entries of a boolean option. *)
Definition primary_entry (d : module_config_t) : struct_option :=
  {| o_name := Some (psz_name d);
     has_arg := if is_bool (i_type d) then no_argument else required_argument;
     val := 0 |}.

Definition no_entry (d : module_config_t) : struct_option :=
  {| o_name := Some ("no" ++ psz_name d)%string; has_arg := no_argument; val := 1 |}.

Definition no_dash_entry (d : module_config_t) : struct_option :=
  {| o_name := Some ("no-" ++ psz_name d)%string; has_arg := no_argument; val := 1 |}.

Definition entries_of (d : module_config_t) : list struct_option :=
  primary_entry d :: (if is_bool (i_type d) then [no_entry d; no_dash_entry d] else []).

(** What a descriptor with a short flag contributes to the packed
    short-option string. *)
Definition short_spec (p_item : module_config_t) : string :=
  String (i_short p_item)
    (if is_bool (i_type p_item) then ""
     else if Ascii.eqb (i_short p_item) "v" then "::" else ":").

(** The length of the run of [v] characters a text starts with. *)
Fixpoint leading_v (s : string) : Z :=
  match s with
  | String "v" r => 1 + leading_v r
  | _ => 0
  end.

(** What one occurrence of the verbosity flag adds, in the words of the
    specification: one for the bare flag, one more for each [v] attached to
    it, the number for a numeric suffix. *)
Definition verbosity_increment (arg : option string) : Z :=
  match arg with
  | None => 1
  | Some (String "v" r) => 1 + leading_v (String "v" r)
  | Some a => atoi a
  end.

(** One of the characters 0 to 9. *)
Definition decimal_digit (c : ascii) : bool :=
  (48 <=? code c) && (code c <=? 57).

(** A text made of decimal digits only. *)
Fixpoint all_decimal (s : string) : bool :=
  match s with
  | EmptyString => true
  | String c r => decimal_digit c && all_decimal r
  end.

(** A decimal numeral: decimal digits only, at least one, the first of
    them not zero. *)
Definition decimal_numeral (s : string) : bool :=
  match s with
  | EmptyString => false
  | String c r => decimal_digit c && negb (code c =? 48) && all_decimal r
  end.

(** A text that does not begin with a number: after white space and one
    sign comes no decimal digit. *)
Definition no_leading_number (text : string) : bool :=
  match (match skip_space text with
         | String "-" r => r
         | String "+" r => r
         | s => s
         end) with
  | EmptyString => true
  | String c _ => negb ((48 <=? code c) && (code c <=? 57))
  end.

(** A character occurs in a string. *)
Fixpoint occurs (c : ascii) (s : string) : Prop :=
  match s with
  | EmptyString => False
  | String x r => x = c \/ occurs c r
  end.

(** A call of the scanner that matched a long entry: it returned zero,
    [i_index] designates a named entry and [flag] holds its [val]. *)
Definition long_match (tbl : list struct_option) (ev : getopt_call) : Prop :=
  exists e entry,
    nth_error tbl (i_index ev) = Some e /\ o_name e = Some entry /\
    flag ev = val e.

(** The body reaches its last block, the report of an unknown option: the
    short table has no descriptor under the value the scanner returned, and
    when that value is zero the registry has no descriptor under the name of
    the entry matched. The value the scanner returns for a token it does
    not know is the character [?]; a registry that gives a descriptor this
    short flag keeps such a token from the block. *)
Definition reaches_unknown_block (p_list : list module_t) (t : tables) (ev : getopt_call)
  : Prop :=
  pp_shortopts t (i_cmd ev) = None /\
  (i_cmd ev = 0 ->
   exists e entry,
     nth_error (p_longopts t) (i_index ev) = Some e /\ o_name e = Some entry /\
     config_FindConfig p_list (strip_no entry (flag ev)) = None).

Definition put_name (p : put_call) : string :=
  match p with
  | config_PutPsz n _ => n
  | config_PutInt n _ => n
  | config_PutFloat n _ => n
  end.

(** The descriptors the table-building loop goes through: those that are
    not hints, in the modules whose counter of items is not zero. *)
Definition processed (p_list : list module_t) : list module_config_t :=
  flat_map (fun m => if (i_config_items m =? 0)%nat then []
                     else filter non_hint (p_config m)) p_list.

Definition claims_flag (i : Z) (d : module_config_t) : bool :=
  negb (code (i_short d) =? 0) && (code (i_short d) =? i).

(** The last descriptor of a list that carries the flag of code [i]. *)
Definition last_with_flag (i : Z) (l : list module_config_t)
  : option module_config_t :=
  find (claims_flag i) (rev l).

(** The descriptors that receive the doubled colon. *)
Definition countV (p_list : list module_t) : nat :=
  List.length (filter (fun d => non_hint d && negb (is_bool (i_type d))
                                && Ascii.eqb (i_short d) "v")
                      (descriptors p_list)).

(** The most slots of the long table, and the most characters of the
    packed string, one descriptor can take. *)
Definition long_slots (d : module_config_t) : nat :=
  if non_hint d then (if is_bool (i_type d) then 3 else 1)%nat else 0%nat.

Definition short_chars (d : module_config_t) : nat :=
  if non_hint d then
    (if is_bool (i_type d) then 1
     else if Ascii.eqb (i_short d) "v" then 3 else 2)%nat
  else 0%nat.

(** Every descriptor of the short table sits under the code of its own
    flag, was met by the loop, and has all its long entries in the long
    table. *)
Definition short_table_inv (t : tables) (seen : list module_config_t) : Prop :=
  forall i d,
    pp_shortopts t i = Some d ->
    i = code (i_short d) /\ i <> 0 /\ In d seen /\
    incl (entries_of d) (p_longopts t).

(** A name the registry knows: the name of a descriptor that is not a hint,
    or the replacement name such a descriptor points to. *)
Definition registered (p_list : list module_t) (name : string) : Prop :=
  exists d, In d (descriptors p_list) /\ non_hint d = true /\
            (psz_name d = name \/ psz_current d = Some name).

Definition is_stderr (o : output) : Prop :=
  match o with stderr _ => True | msg_Err _ => False end.

(** One of the three arrays of the call could not be allocated. *)
Definition array_allocation_fails (host : host_t) (b_ignore_errors : bool) : bool :=
  negb (malloc_ok host 0) || negb (malloc_ok host 1)
  || (b_ignore_errors && negb (malloc_ok host 2)).

(** A state and an outcome with what was printed left out. *)
Definition strip_log (st : parse_state) : parse_state :=
  {| i_verbose := i_verbose st; puts := puts st; log := []; mem := mem st |}.

Definition strip (o : outcome) : outcome :=
  match o with
  | Continue st => Continue (strip_log st)
  | Return z st => Return z (strip_log st)
  | Fault st => Fault (strip_log st)
  end.

(* ================================================================== *)
(** ** A small registry for the concrete runs                         *)
(* ================================================================== *)

Module Sample.

Definition NUL : ascii := ascii_of_nat 0.

Definition item (n : string) (s : ascii) (t : config_type)
    (c : option string) (b : bool) : module_config_t :=
  {| psz_name := n; i_short := s; i_type := t; psz_current := c; b_strict := b |}.

Definition main : module_t :=
  {| i_config_items := 8; i_bool_items := 2;
     p_config :=
       [ item "General" NUL CONFIG_HINT None false;
         item "verbose" "v" CONFIG_ITEM_INTEGER None false;
         item "fullscreen" "f" CONFIG_ITEM_BOOL None false;
         item "width" "w" CONFIG_ITEM_INTEGER None false;
         item "old-width" "w" CONFIG_ITEM_INTEGER (Some "width") false;
         item "intf" "I" CONFIG_ITEM_STRING None false;
         item "gone" "g" CONFIG_ITEM_STRING (Some "intf") true;
         item "old-ghost" NUL CONFIG_ITEM_STRING (Some "ghost") false;
         item "fs" NUL CONFIG_ITEM_BOOL (Some "fullscreen") true ] |}.

Definition registry : list module_t := [main].

Definition host : host_t :=
  {| malloc_ok := fun _ => true;
     ConfigStringToKey := fun _ => 0;
     psz_object_name := "vlc" |}.

(** A registry whose help option carries the question mark as its flag. *)
Definition help_registry : list module_t :=
  [{| i_config_items := 2; i_bool_items := 1;
      p_config := [ item "help" "?" CONFIG_ITEM_BOOL None false;
                    item "width" "w" CONFIG_ITEM_INTEGER None false ] |}].

(** A registry whose video output option, a string, carries the flag [v]. *)
Definition vout_registry : list module_t :=
  [{| i_config_items := 1; i_bool_items := 0;
      p_config := [ item "vout" "v" CONFIG_ITEM_STRING None false ] |}].



End Sample.

(* ================================================================== *)
(** ** Facts about the C integers                                     *)
(* ================================================================== *)

Lemma to_int_small (z : Z) :
  -2147483648 <= z < 2147483648 -> to_int z = z.
Proof.
  intros Hz. unfold to_int.
  rewrite Z.mod_small by lia. lia.
Qed.

Lemma to_int_range (z : Z) : -2147483648 <= to_int z < 2147483648.
Proof.
  unfold to_int.
  pose proof (Z.mod_pos_bound (z + 2147483648) 4294967296 ltac:(lia)). lia.
Qed.

Lemma to_int_add_l (a b : Z) : to_int (to_int a + b) = to_int (a + b).
Proof.
  unfold to_int.
  replace ((a + 2147483648) mod 4294967296 - 2147483648 + b + 2147483648)
    with ((a + 2147483648) mod 4294967296 + b) by lia.
  rewrite Zplus_mod_idemp_l.
  f_equal. f_equal. lia.
Qed.

(* ================================================================== *)
(** ** The generated long table                                       *)
(* ================================================================== *)

Section TableGeneration.

Variable alloc_ok : nat -> bool.
Hypothesis alloc_succeeds : forall k, alloc_ok k = true.

Lemma add_short_long (d : module_config_t) (t : tables) :
  p_longopts (add_short d t) = p_longopts t.
Proof. unfold add_short. destruct (code (i_short d) =? 0); reflexivity. Qed.

Lemma add_item_long (d : module_config_t) (t : tables) :
  p_longopts (add_item alloc_ok d t)
  = p_longopts t ++ (if non_hint d then entries_of d else []).
Proof.
  unfold add_item, non_hint, entries_of.
  destruct (is_hint (i_type d)); simpl.
  - now rewrite app_nil_r.
  - rewrite alloc_succeeds; simpl.
    destruct (is_bool (i_type d)) eqn:Hb; simpl.
    + rewrite !alloc_succeeds; simpl.
      rewrite add_short_long; simpl.
      rewrite <- !app_assoc. unfold primary_entry. rewrite Hb. reflexivity.
    + rewrite add_short_long. unfold primary_entry. rewrite Hb. reflexivity.
Qed.

Lemma add_items_long (l : list module_config_t) (t : tables) :
  p_longopts (fold_left (fun acc p_item => add_item alloc_ok p_item acc) l t)
  = p_longopts t ++ flat_map entries_of (filter non_hint l).
Proof.
  revert t. induction l as [|d l IH]; intros t; simpl.
  - now rewrite app_nil_r.
  - rewrite IH, add_item_long.
    destruct (non_hint d); simpl.
    + now rewrite <- app_assoc.
    + now rewrite app_nil_r.
Qed.

Lemma wf_no_items (m : module_t) :
  module_wf m -> i_config_items m = 0%nat -> filter non_hint (p_config m) = [].
Proof.
  intros [Hc _] Hz. rewrite Hz in Hc.
  symmetry in Hc. apply length_zero_iff_nil in Hc. exact Hc.
Qed.

Lemma add_module_long (m : module_t) (t : tables) :
  module_wf m ->
  p_longopts (add_module alloc_ok m t)
  = p_longopts t ++ flat_map entries_of (filter non_hint (p_config m)).
Proof.
  intros Hwf. unfold add_module.
  destruct (Nat.eqb_spec (i_config_items m) 0) as [Hz|Hz].
  - rewrite (wf_no_items m Hwf Hz). simpl. now rewrite app_nil_r.
  - apply add_items_long.
Qed.

Lemma fill_tables_long (p_list : list module_t) (t : tables) :
  Forall module_wf p_list ->
  p_longopts (fill_tables alloc_ok p_list t)
  = p_longopts t ++ flat_map entries_of (filter non_hint (descriptors p_list)).
Proof.
  intros Hwf. revert t. unfold fill_tables, descriptors.
  induction Hwf as [|m l Hm Hl IH]; intros t; simpl.
  - now rewrite app_nil_r.
  - rewrite IH, add_module_long by assumption.
    rewrite filter_app, flat_map_app, <- app_assoc. reflexivity.
Qed.

Lemma build_tables_long (p_list : list module_t) (n : nat) :
  Forall module_wf p_list ->
  p_longopts (build_tables alloc_ok p_list n)
  = flat_map entries_of (filter non_hint (descriptors p_list)) ++ [zero_option].
Proof.
  intros Hwf. unfold build_tables, close_tables, push_long; simpl.
  rewrite fill_tables_long by assumption. reflexivity.
Qed.

End TableGeneration.

Lemma entries_named (l : list module_config_t) :
  Forall (fun e => o_name e <> None) (flat_map entries_of l).
Proof.
  induction l as [|d l IH]; [constructor|].
  change (flat_map entries_of (d :: l)) with (entries_of d ++ flat_map entries_of l).
  apply Forall_app; split; [|exact IH].
  unfold entries_of. destruct (is_bool (i_type d));
    repeat constructor; discriminate.
Qed.

Lemma live_entries_closed (l : list struct_option) :
  Forall (fun e => o_name e <> None) l -> live_entries (l ++ [zero_option]) = l.
Proof.
  induction 1 as [|e l He Hl IH]; simpl; [reflexivity|].
  destruct (o_name e); [now rewrite IH | contradiction].
Qed.

Lemma entries_count (l : list module_config_t) :
  List.length (flat_map entries_of l)
  = (List.length l + 2 * List.length (filter (fun d => is_bool (i_type d)) l))%nat.
Proof.
  induction l as [|d l IH]; [reflexivity|].
  change (flat_map entries_of (d :: l)) with (entries_of d ++ flat_map entries_of l).
  rewrite length_app, IH. unfold entries_of. cbn [filter].
  destruct (is_bool (i_type d)); simpl; lia.
Qed.

Lemma bool_filter_non_hint (l : list module_config_t) :
  filter (fun d => is_bool (i_type d)) (filter non_hint l)
  = filter (fun d => is_bool (i_type d)) l.
Proof.
  induction l as [|d l IH]; simpl; [reflexivity|].
  unfold non_hint at 1. destruct (i_type d) eqn:Ht; simpl; rewrite ?Ht; simpl;
    now rewrite IH.
Qed.

Lemma i_opts_acc (p_list : list module_t) (k : nat) :
  fold_left (fun n p_parser => (n + (i_config_items p_parser
                                     + 2 * i_bool_items p_parser))%nat) p_list k
  = (k + i_opts p_list)%nat.
Proof.
  unfold i_opts. revert k. induction p_list as [|m l IH]; intros k; simpl.
  - lia.
  - rewrite IH. rewrite (IH (i_config_items m + _)%nat). lia.
Qed.

Lemma i_opts_wf (p_list : list module_t) :
  Forall module_wf p_list ->
  i_opts p_list = (countNonHint p_list + 2 * countBool p_list)%nat.
Proof.
  unfold countNonHint, countBool, descriptors.
  induction 1 as [|m l [Hc Hb] Hl IH]; [reflexivity|].
  unfold i_opts in *; simpl. rewrite i_opts_acc. unfold i_opts. rewrite IH.
  rewrite !filter_app, !length_app.
  fold non_hint in Hc. rewrite Hc, Hb. lia.
Qed.

Lemma without_hints_descriptors (p_list : list module_t) :
  descriptors (without_hints p_list) = filter non_hint (descriptors p_list).
Proof.
  unfold descriptors, without_hints.
  induction p_list as [|m l IH]; simpl; [reflexivity|].
  now rewrite filter_app, IH.
Qed.

Lemma filter_idem {A} (f : A -> bool) (l : list A) :
  filter f (filter f l) = filter f l.
Proof.
  induction l as [|a l IH]; simpl; [reflexivity|].
  destruct (f a) eqn:Hf; simpl; rewrite ?Hf, IH; reflexivity.
Qed.

Lemma without_hints_wf (p_list : list module_t) :
  Forall module_wf p_list -> Forall module_wf (without_hints p_list).
Proof.
  unfold without_hints. intros H. apply Forall_map.
  eapply Forall_impl; [|exact H].
  intros m [Hc Hb]. split; simpl.
  - fold non_hint. rewrite filter_idem. exact Hc.
  - rewrite bool_filter_non_hint. exact Hb.
Qed.

(** C4. With module counters that agree with the descriptors and with every
    name allocation succeeding, the generated long table consists of exactly
    countNonHint + 2 * countBool named entries followed by one zeroed entry;
    this fills the i_opts + 1 slots allocated for it, and the table is the
    one generated from the registry with its hint descriptors taken out. *)
Theorem long_table_shape (alloc_ok : nat -> bool) (p_list : list module_t) (n : nat) :
  (forall k, alloc_ok k = true) ->
  Forall module_wf p_list ->
  exists live,
    p_longopts (build_tables alloc_ok p_list n) = live ++ [zero_option] /\
    live_entries (p_longopts (build_tables alloc_ok p_list n)) = live /\
    Forall (fun e => o_name e <> None) live /\
    List.length live = (countNonHint p_list + 2 * countBool p_list)%nat /\
    List.length (p_longopts (build_tables alloc_ok p_list n)) = (i_opts p_list + 1)%nat /\
    p_longopts (build_tables alloc_ok (without_hints p_list) n)
    = p_longopts (build_tables alloc_ok p_list n).
Proof.
  intros Halloc Hwf.
  exists (flat_map entries_of (filter non_hint (descriptors p_list))).
  pose proof (entries_named (filter non_hint (descriptors p_list))) as Hnamed.
  assert (Hlen : List.length (flat_map entries_of (filter non_hint (descriptors p_list)))
                 = (countNonHint p_list + 2 * countBool p_list)%nat).
  { rewrite entries_count, bool_filter_non_hint. reflexivity. }
  rewrite (build_tables_long alloc_ok Halloc p_list n Hwf).
  repeat split.
  - apply live_entries_closed. exact Hnamed.
  - exact Hnamed.
  - exact Hlen.
  - rewrite length_app, Hlen, (i_opts_wf p_list Hwf). reflexivity.
  - rewrite (build_tables_long alloc_ok Halloc _ n (without_hints_wf p_list Hwf)).
    rewrite without_hints_descriptors, filter_idem. reflexivity.
Qed.

Lemma long_table_shape_witness :
  exists live,
    p_longopts (build_tables (fun _ => true) Sample.registry 2) = live ++ [zero_option] /\
    List.length live = 12%nat.
Proof.
  destruct (long_table_shape (fun _ => true) Sample.registry 2) as [live H].
  - reflexivity.
  - constructor; [split; reflexivity | constructor].
  - exists live. destruct H as (H1 & _ & _ & H4 & _). split; [exact H1 | exact H4].
Defined.

(* ================================================================== *)
(** ** The packed short-option string                                 *)
(* ================================================================== *)

Lemma append_assoc (a b c : string) :
  ((a ++ b) ++ c)%string = (a ++ (b ++ c))%string.
Proof. induction a as [|x a IH]; simpl; [reflexivity | now rewrite IH]. Qed.

Lemma add_short_spec (d : module_config_t) (t : tables) :
  code (i_short d) <> 0 ->
  psz_shortopts (add_short d t) = (psz_shortopts t ++ short_spec d)%string.
Proof.
  intros Hs. unfold add_short, short_spec.
  destruct (Z.eqb_spec (code (i_short d)) 0); [contradiction|]. simpl.
  destruct (is_bool (i_type d)); simpl; [reflexivity|].
  destruct (Ascii.eqb (i_short d) "v"); rewrite !append_assoc; reflexivity.
Qed.

Lemma add_item_shortopts (alloc_ok : nat -> bool) (d : module_config_t) (t : tables) :
  (forall k, alloc_ok k = true) ->
  is_hint (i_type d) = false ->
  code (i_short d) <> 0 ->
  psz_shortopts (add_item alloc_ok d t) = (psz_shortopts t ++ short_spec d)%string.
Proof.
  intros Halloc Hh Hs. unfold add_item. rewrite Hh, Halloc; simpl.
  destruct (is_bool (i_type d)).
  - rewrite !Halloc; simpl. now rewrite add_short_spec.
  - now rewrite add_short_spec.
Qed.

Lemma is_bool_iff (k : config_type) : is_bool k = true <-> k = CONFIG_ITEM_BOOL.
Proof. destruct k; simpl; split; congruence. Qed.

(** What the table builder appends for a descriptor that is not a hint and
    carries a short flag: the flag followed by nothing when its kind is
    Bool; by two colons exactly when the flag is [v] and the kind is not
    Bool, whatever that kind is; by one colon for every other flag of a kind
    that is not Bool. *)
Lemma short_spec_colons (alloc_ok : nat -> bool) (d : module_config_t) (t : tables) :
  (forall k, alloc_ok k = true) ->
  is_hint (i_type d) = false ->
  code (i_short d) <> 0 ->
  exists colons,
    psz_shortopts (add_item alloc_ok d t)
    = (psz_shortopts t ++ String (i_short d) colons)%string /\
    (colons = "::" <-> (i_short d = "v"%char /\ i_type d <> CONFIG_ITEM_BOOL)) /\
    (colons = ":" <-> (i_short d <> "v"%char /\ i_type d <> CONFIG_ITEM_BOOL)) /\
    (colons = "" <-> i_type d = CONFIG_ITEM_BOOL).
Proof.
  intros Halloc Hh Hs.
  rewrite (add_item_shortopts alloc_ok d t Halloc Hh Hs). unfold short_spec.
  pose proof (is_bool_iff (i_type d)) as Hb.
  destruct (is_bool (i_type d)).
  - exists "". split; [reflexivity|].
    assert (i_type d = CONFIG_ITEM_BOOL) by now apply Hb.
    repeat split; try discriminate; try tauto.
  - assert (Hnb : i_type d <> CONFIG_ITEM_BOOL).
    { intros E. apply Hb in E. discriminate. }
    destruct (Ascii.eqb_spec (i_short d) "v") as [Hv|Hv].
    + exists "::". split; [reflexivity|].
      repeat split; try discriminate; try tauto.
    + exists ":". split; [reflexivity|].
      repeat split; try discriminate; try tauto.
Qed.

Lemma short_spec_colons_intf :
  exists colons,
    psz_shortopts (add_item (fun _ => true)
                     (Sample.item "intf" "I" CONFIG_ITEM_STRING None false)
                     (empty_tables 2))
    = String "I" colons /\ colons = ":".
Proof.
  destruct (short_spec_colons (fun _ => true)
              (Sample.item "intf" "I" CONFIG_ITEM_STRING None false)
              (empty_tables 2)) as [colons [H1 [_ [H3 _]]]].
  - reflexivity.
  - reflexivity.
  - vm_compute. discriminate.
  - exists colons. split; [exact H1|].
    apply H3. split; [vm_compute; discriminate | discriminate].
Defined.

(** A String descriptor whose short flag is [v] receives the second colon
    although its kind is not Integer. *)
Lemma short_spec_colons_string_v :
  psz_shortopts (add_item (fun _ => true)
                   (Sample.item "vout" "v" CONFIG_ITEM_STRING None false)
                   (empty_tables 2)) = "v::" /\
  ~ (i_short (Sample.item "vout" "v" CONFIG_ITEM_STRING None false) = "v"%char /\
     i_type (Sample.item "vout" "v" CONFIG_ITEM_STRING None false)
     = CONFIG_ITEM_INTEGER).
Proof.
  split; [reflexivity|].
  intros [_ H]. discriminate H.
Qed.

(** C9, at a failing input. The registry holds one String descriptor,
    [vout], with the short flag [v]. The table builder tests the flag and
    that the kind is not Bool, not that the kind is Integer: the packed
    string is [v::], the argument of [-v] is optional, while the long entry
    of the same descriptor requires its argument. The short switch handles
    an absent argument for the kind Integer only. So [-v x11] leaves [x11]
    a plain word and puts a null string under [vout], in both modes, where
    [--vout x11] puts the text. *)
Theorem string_v_flag_run :
  psz_shortopts (build_tables (malloc_ok Sample.host) Sample.vout_registry 2)
  = "v::" /\
  p_longopts (build_tables (malloc_ok Sample.host) Sample.vout_registry 2)
  = [{| o_name := Some "vout"; has_arg := required_argument; val := 0 |};
     zero_option] /\
  config_LoadCmdLine Sample.host Sample.vout_registry ["vlc"; "-v"; "x11"] false
  = Return 0
      {| i_verbose := 0; puts := [config_PutPsz "vout" None]; log := [];
         mem := {| caller_array := ["vlc"; "-v"; "x11"]; private_copy := None |} |} /\
  config_LoadCmdLine Sample.host Sample.vout_registry ["vlc"; "-v"; "x11"] true
  = Return 0
      {| i_verbose := 0; puts := [config_PutPsz "vout" None]; log := [];
         mem := {| caller_array := ["vlc"; "-v"; "x11"]; private_copy := None |} |} /\
  config_LoadCmdLine Sample.host Sample.vout_registry ["vlc"; "--vout"; "x11"] false
  = Return 0
      {| i_verbose := 0; puts := [config_PutPsz "vout" (Some "x11")]; log := [];
         mem := {| caller_array := ["vlc"; "--vout"; "x11"];
                   private_copy := None |} |}.
Proof. repeat split; vm_compute; reflexivity. Qed.

(* ================================================================== *)
(** ** The long-option branch                                         *)
(* ================================================================== *)

Lemma find_item_some (name : string) (l : list module_config_t) (d : module_config_t) :
  find_item name l = Some d ->
  In d l /\ non_hint d = true /\ psz_name d = name.
Proof.
  induction l as [|x l IH]; simpl; [discriminate|].
  destruct (negb (is_hint (i_type x)) && String.eqb name (psz_name x)) eqn:E.
  - intros H; injection H as <-.
    apply andb_prop in E as [E1 E2]. apply String.eqb_eq in E2.
    repeat split; auto.
  - intros H. destruct (IH H) as (? & ? & ?). auto.
Qed.

(** What the body does once a long entry was matched and the registry has a
    descriptor under its name. *)
Lemma loop_body_long (host : host_t) (p_list : list module_t) (t : tables)
    (b : bool) (ev : getopt_call) (st : parse_state)
    (e : struct_option) (entry : string) (p_conf : module_config_t) :
  i_cmd ev = 0 ->
  nth_error (p_longopts t) (i_index ev) = Some e ->
  o_name e = Some entry ->
  config_FindConfig p_list (strip_no entry (flag ev)) = Some p_conf ->
  loop_body host p_list t b ev st =
  match psz_current p_conf with
  | Some current =>
      if b_strict p_conf then Continue (print (warn_removed p_conf) st)
      else
        let st1 := print (warn_deprecated b p_conf current) st in
        if negb b then Return (-1) st1
        else match config_FindConfig p_list current with
             | Some p_new => long_switch host p_new current (optarg ev) (flag ev) st1
             | None => Fault st1
             end
  | None => long_switch host p_conf (strip_no entry (flag ev)) (optarg ev) (flag ev) st
  end.
Proof.
  intros Hc Hn He Hf. unfold loop_body, long_branch.
  rewrite Hc, Hn. simpl. destruct e as [nm ha v]. simpl in He. subst nm.
  rewrite Hf. reflexivity.
Qed.

(** A removed option met on the long path: a warning, no put, next token. *)
Lemma long_removed (host : host_t) (p_list : list module_t) (t : tables)
    (b : bool) (ev : getopt_call) (st : parse_state)
    (e : struct_option) (entry current : string) (p_conf : module_config_t) :
  i_cmd ev = 0 ->
  nth_error (p_longopts t) (i_index ev) = Some e ->
  o_name e = Some entry ->
  config_FindConfig p_list (strip_no entry (flag ev)) = Some p_conf ->
  psz_current p_conf = Some current ->
  b_strict p_conf = true ->
  loop_body host p_list t b ev st = Continue (print (warn_removed p_conf) st).
Proof.
  intros Hc Hn He Hf Hcur Hs.
  rewrite (loop_body_long host p_list t b ev st e entry p_conf Hc Hn He Hf).
  now rewrite Hcur, Hs.
Qed.

(** A deprecated option met on the long path in strict mode ends the call. *)
Lemma long_deprecated_strict (host : host_t) (p_list : list module_t) (t : tables)
    (ev : getopt_call) (st : parse_state)
    (e : struct_option) (entry current : string) (p_conf : module_config_t) :
  i_cmd ev = 0 ->
  nth_error (p_longopts t) (i_index ev) = Some e ->
  o_name e = Some entry ->
  config_FindConfig p_list (strip_no entry (flag ev)) = Some p_conf ->
  psz_current p_conf = Some current ->
  b_strict p_conf = false ->
  loop_body host p_list t false ev st
  = Return (-1) (print (warn_deprecated false p_conf current) st).
Proof.
  intros Hc Hn He Hf Hcur Hs.
  rewrite (loop_body_long host p_list t false ev st e entry p_conf Hc Hn He Hf).
  now rewrite Hcur, Hs.
Qed.

(** C10. When a deprecated option that is not removed is redirected in
    permissive mode, the replacement name is looked up again and the result
    is used without a test: if the lookup yields a descriptor, the value is
    coerced by its kind and stored under the replacement name; if the
    registry has no descriptor under the replacement name, the body ends in
    the dereference of the null descriptor. *)
Theorem redirect_lookup_unchecked (host : host_t) (p_list : list module_t)
    (t : tables) (ev : getopt_call) (st : parse_state)
    (e : struct_option) (entry current : string) (p_conf : module_config_t) :
  i_cmd ev = 0 ->
  nth_error (p_longopts t) (i_index ev) = Some e ->
  o_name e = Some entry ->
  config_FindConfig p_list (strip_no entry (flag ev)) = Some p_conf ->
  psz_current p_conf = Some current ->
  b_strict p_conf = false ->
  (forall p_new,
      config_FindConfig p_list current = Some p_new ->
      loop_body host p_list t true ev st
      = long_switch host p_new current (optarg ev) (flag ev)
          (print (warn_deprecated true p_conf current) st)) /\
  (config_FindConfig p_list current = None ->
   loop_body host p_list t true ev st
   = Fault (print (warn_deprecated true p_conf current) st)).
Proof.
  intros Hc Hn He Hf Hcur Hs.
  rewrite (loop_body_long host p_list t true ev st e entry p_conf Hc Hn He Hf).
  rewrite Hcur, Hs. simpl.
  split.
  - intros p_new ->. reflexivity.
  - intros ->. reflexivity.
Qed.

Lemma redirect_lookup_unchecked_witness :
  loop_body Sample.host Sample.registry
    (build_tables (fun _ => true) Sample.registry 3) true
    {| i_cmd := 0; optarg := Some "x"; optind := 2; optopt := 63;
       i_index := 8; flag := 0; scanned := ["vlc"; "--old-ghost=x"] |}
    (initial_state {| caller_array := ["vlc"; "--old-ghost=x"];
                      private_copy := Some ["vlc"; "--old-ghost=x"] |})
  = Fault (print (warn_deprecated true
                    (Sample.item "old-ghost" Sample.NUL CONFIG_ITEM_STRING
                                 (Some "ghost") false) "ghost")
             (initial_state {| caller_array := ["vlc"; "--old-ghost=x"];
                               private_copy := Some ["vlc"; "--old-ghost=x"] |})).
Proof.
  refine (proj2 (redirect_lookup_unchecked Sample.host Sample.registry
                   (build_tables (fun _ => true) Sample.registry 3)
                   _ _ (primary_entry (Sample.item "old-ghost" Sample.NUL
                                         CONFIG_ITEM_STRING (Some "ghost") false))
                   "old-ghost" "ghost"
                   (Sample.item "old-ghost" Sample.NUL CONFIG_ITEM_STRING
                                (Some "ghost") false)
                   _ _ _ _ _ _) _); reflexivity.
Defined.

(* ================================================================== *)
(** ** Boolean options and their negation forms                       *)
(* ================================================================== *)

Lemma strip_no_plain (name : string) : strip_no name 0 = name.
Proof. reflexivity. Qed.



(** The test on the third character cannot tell noX with X beginning with
    a dash from no-X: three characters are taken off. *)
Lemma strip_no_leading_dash : strip_no ("no" ++ "-x") 1 = "x".
Proof. reflexivity. Qed.

Lemma found_in_registry (p_list : list module_t) (name : string)
    (d : module_config_t) :
  config_FindConfig p_list name = Some d ->
  In d (filter non_hint (descriptors p_list)).
Proof.
  intros H. apply find_item_some in H as (Hin & Hnh & _).
  apply filter_In. split; assumption.
Qed.






(* ================================================================== *)
(** ** Deprecated and removed options on the short path               *)
(* ================================================================== *)

(** C1, at the failing input. [old-width] is deprecated in favour of
    [width], not removed, and carries the short flag [w]. Given [-w 5], the
    short branch consults no deprecation mark: in strict mode the call
    returns 0 instead of -1, and in both modes the value is put under the
    deprecated name [old-width], not under [width], with no diagnostic. *)
Theorem deprecated_short_flag_run :
  pp_shortopts (build_tables (fun _ => true) Sample.registry 2) (code "w")
  = Some (Sample.item "old-width" "w" CONFIG_ITEM_INTEGER (Some "width") false) /\
  config_LoadCmdLine Sample.host Sample.registry ["vlc"; "-w"; "5"] false
  = Return 0
      {| i_verbose := 0; puts := [config_PutInt "old-width" 5]; log := [];
         mem := {| caller_array := ["vlc"; "-w"; "5"]; private_copy := None |} |} /\
  config_LoadCmdLine Sample.host Sample.registry ["vlc"; "-w"; "5"] true
  = Return 0
      {| i_verbose := 0; puts := [config_PutInt "old-width" 5]; log := [];
         mem := {| caller_array := ["vlc"; "-w"; "5"]; private_copy := None |} |}.
Proof. repeat split; vm_compute; reflexivity. Qed.

(** C6, at the failing input. [gone] is marked removed and carries the
    short flag [g]. Given [-g x], the short branch consults no deprecation
    mark: in both modes the value is put under [gone] and no warning is
    printed. *)
Theorem removed_short_flag_run :
  pp_shortopts (build_tables (fun _ => true) Sample.registry 2) (code "g")
  = Some (Sample.item "gone" "g" CONFIG_ITEM_STRING (Some "intf") true) /\
  config_LoadCmdLine Sample.host Sample.registry ["vlc"; "-g"; "x"] false
  = Return 0
      {| i_verbose := 0; puts := [config_PutPsz "gone" (Some "x")]; log := [];
         mem := {| caller_array := ["vlc"; "-g"; "x"]; private_copy := None |} |} /\
  config_LoadCmdLine Sample.host Sample.registry ["vlc"; "-g"; "x"] true
  = Return 0
      {| i_verbose := 0; puts := [config_PutPsz "gone" (Some "x")]; log := [];
         mem := {| caller_array := ["vlc"; "-g"; "x"]; private_copy := None |} |}.
Proof. repeat split; vm_compute; reflexivity. Qed.

(** The short branch never looks at the deprecation marks: two descriptors
    that differ only in them are treated alike. *)
Lemma short_switch_ignores_marks (p : module_config_t) (cur : option string)
    (strict : bool) (cmd : Z) (arg : option string) (st : parse_state) :
  short_switch {| psz_name := psz_name p; i_short := i_short p;
                  i_type := i_type p; psz_current := cur; b_strict := strict |}
               cmd arg st
  = short_switch p cmd arg st.
Proof. reflexivity. Qed.

(* ================================================================== *)
(** ** Verbosity                                                      *)
(* ================================================================== *)

Lemma count_v_cons (c : ascii) (r : string) (v : Z) :
  count_v (String c r) v
  = if Ascii.eqb c "v" then count_v r (to_int (v + 1)) else v.
Proof. destruct c as [[] [] [] [] [] [] [] []]; reflexivity. Qed.

Lemma leading_v_cons (c : ascii) (r : string) :
  leading_v (String c r) = if Ascii.eqb c "v" then 1 + leading_v r else 0.
Proof. destruct c as [[] [] [] [] [] [] [] []]; reflexivity. Qed.

Lemma count_v_total (s : string) (a : Z) :
  count_v s (to_int a) = to_int (a + leading_v s).
Proof.
  revert a. induction s as [|c r IH]; intros a.
  - simpl. f_equal. lia.
  - rewrite count_v_cons, leading_v_cons.
    destruct (Ascii.eqb c "v").
    + rewrite to_int_add_l, IH. f_equal. lia.
    + f_equal. lia.
Qed.

Lemma bump_verbose_cons (c : ascii) (r : string) (v : Z) :
  bump_verbose (Some (String c r)) v
  = if Ascii.eqb c "v" then count_v (String c r) (to_int (v + 1))
    else to_int (v + atoi (String c r)).
Proof. destruct c as [[] [] [] [] [] [] [] []]; reflexivity. Qed.

Lemma verbosity_increment_cons (c : ascii) (r : string) :
  verbosity_increment (Some (String c r))
  = if Ascii.eqb c "v" then 1 + leading_v (String c r) else atoi (String c r).
Proof. destruct c as [[] [] [] [] [] [] [] []]; reflexivity. Qed.

Lemma bump_verbose_spec (arg : option string) (v : Z) :
  bump_verbose arg v = to_int (v + verbosity_increment arg).
Proof.
  destruct arg as [[|c r]|]; try reflexivity.
  rewrite bump_verbose_cons, verbosity_increment_cons.
  destruct (Ascii.eqb c "v"); [|reflexivity].
  rewrite count_v_total. f_equal. lia.
Qed.

Lemma long_switch_verbose (host : host_t) (p : module_config_t) (name : string)
    (arg : option string) (fl : Z) (st : parse_state) :
  i_verbose (state_of (long_switch host p name arg fl st)) = i_verbose st.
Proof.
  unfold long_switch. destruct (i_type p); try reflexivity;
    destruct arg; reflexivity.
Qed.

Lemma short_switch_verbose (p : module_config_t) (cmd : Z)
    (arg : option string) (st : parse_state) :
  cmd <> code "v" ->
  i_verbose (state_of (short_switch p cmd arg st)) = i_verbose st.
Proof.
  intros Hc. unfold short_switch.
  destruct (Z.eqb_spec cmd (code "v")); [contradiction|].
  destruct (i_type p); try reflexivity; destruct arg; reflexivity.
Qed.

Lemma loop_body_verbose (host : host_t) (p_list : list module_t) (t : tables)
    (b : bool) (ev : getopt_call) (st : parse_state) :
  i_cmd ev <> code "v" ->
  i_verbose (state_of (loop_body host p_list t b ev st)) = i_verbose st.
Proof.
  intros Hc. unfold loop_body.
  destruct (i_cmd ev =? 0) eqn:Hz.
  - unfold long_branch.
    destruct (nth_error (p_longopts t) (i_index ev)) as [[[entry|] ha v]|];
      try reflexivity.
    destruct (config_FindConfig p_list (strip_no entry (flag ev))) as [p_conf|].
    + destruct (psz_current p_conf) as [current|].
      * destruct (b_strict p_conf); [reflexivity|].
        destruct b; simpl; [|reflexivity].
        destruct (config_FindConfig p_list current);
          [now rewrite long_switch_verbose | reflexivity].
      * apply long_switch_verbose.
    + destruct (pp_shortopts t (i_cmd ev));
        [now apply short_switch_verbose | destruct b; reflexivity].
  - destruct (pp_shortopts t (i_cmd ev));
      [now apply short_switch_verbose | destruct b; reflexivity].
Qed.

(** C2. When the short table holds an Integer descriptor under [v], every
    occurrence of the flag adds to the counter of the call one for the bare
    flag, one more for each [v] attached to it, or the number attached to
    it, and puts the new cumulative value under the name of that descriptor;
    no other option changes the counter. With the sample registry,
    [-v -v -v] puts 1, 2, 3; [-vv] puts 2; [-v2] puts 2; [-v -vv] puts 1
    then 3. *)
Theorem verbosity_accumulates (host : host_t) (p_list : list module_t)
    (t : tables) (b : bool) (p_v : module_config_t) :
  pp_shortopts t (code "v") = Some p_v ->
  i_type p_v = CONFIG_ITEM_INTEGER ->
  (forall ev st,
      i_cmd ev = code "v" ->
      loop_body host p_list t b ev st
      = Continue
          (put (config_PutInt (psz_name p_v)
                  (to_int (i_verbose st + verbosity_increment (optarg ev))))
             (set_verbose
                (to_int (i_verbose st + verbosity_increment (optarg ev))) st))) /\
  (forall ev st,
      i_cmd ev <> code "v" ->
      i_verbose (state_of (loop_body host p_list t b ev st)) = i_verbose st) /\
  puts (state_of (config_LoadCmdLine Sample.host Sample.registry
                    ["vlc"; "-v"; "-v"; "-v"] b))
  = [config_PutInt "verbose" 1; config_PutInt "verbose" 2;
     config_PutInt "verbose" 3] /\
  puts (state_of (config_LoadCmdLine Sample.host Sample.registry
                    ["vlc"; "-vv"] b))
  = [config_PutInt "verbose" 2] /\
  puts (state_of (config_LoadCmdLine Sample.host Sample.registry
                    ["vlc"; "-v2"] b))
  = [config_PutInt "verbose" 2] /\
  puts (state_of (config_LoadCmdLine Sample.host Sample.registry
                    ["vlc"; "-v"; "-vv"] b))
  = [config_PutInt "verbose" 1; config_PutInt "verbose" 3].
Proof.
  intros Hv Hint. split; [|split].
  - intros ev st Hc. unfold loop_body. rewrite Hc.
    change (code "v" =? 0) with false. cbv iota. rewrite Hv.
    unfold short_switch. rewrite Hint, Z.eqb_refl, bump_verbose_spec.
    reflexivity.
  - intros ev st Hc. now apply loop_body_verbose.
  - destruct b; vm_compute; repeat split; reflexivity.
Qed.

Lemma verbosity_accumulates_witness :
  loop_body Sample.host Sample.registry
    (build_tables (fun _ => true) Sample.registry 2) false
    {| i_cmd := 118; optarg := Some "vv"; optind := 3; optopt := 63;
       i_index := 12; flag := 0; scanned := ["vlc"; "-v"; "-vvv"] |}
    {| i_verbose := 1; puts := [config_PutInt "verbose" 1]; log := [];
       mem := {| caller_array := ["vlc"; "-v"; "-vvv"]; private_copy := None |} |}
  = Continue
      {| i_verbose := 4;
         puts := [config_PutInt "verbose" 1; config_PutInt "verbose" 4];
         log := [];
         mem := {| caller_array := ["vlc"; "-v"; "-vvv"]; private_copy := None |} |}.
Proof.
  rewrite (proj1 (verbosity_accumulates Sample.host Sample.registry
                    (build_tables (fun _ => true) Sample.registry 2) false
                    (Sample.item "verbose" "v" CONFIG_ITEM_INTEGER None false)
                    eq_refl eq_refl)) by reflexivity.
  reflexivity.
Defined.

(* ================================================================== *)
(** ** Integer options                                                *)
(* ================================================================== *)

Lemma unsigned_no_leading_number (s : string) :
  match s with
  | EmptyString => true
  | String c _ => negb ((48 <=? code c) && (code c <=? 57))
  end = true ->
  strtol_prefix s 0 = (10, s) /\ strtol_digits 10 s 0 = 0.
Proof.
  destruct s as [|c r]; [split; reflexivity|].
  destruct c as [[] [] [] [] [] [] [] []]; intros H;
    try discriminate H; split; reflexivity.
Qed.

Lemma strtol_no_leading_number (text : string) :
  no_leading_number text = true -> strtol text 0 = 0.
Proof.
  unfold no_leading_number, strtol. intros H.
  destruct (skip_space text) as [|c r]; [reflexivity|].
  destruct c as [[] [] [] [] [] [] [] []];
    cbv beta iota in H; try discriminate H; try reflexivity;
    destruct (unsigned_no_leading_number r H) as [E1 E2];
    cbv zeta iota beta; rewrite E1, E2; reflexivity.
Qed.

Lemma strtol_digits_decimal (c : ascii) (r : string) (acc : Z) :
  decimal_digit c = true ->
  strtol_digits 10 (String c r) acc = strtol_digits 10 r (acc * 10 + (code c - 48)).
Proof.
  destruct c as [[] [] [] [] [] [] [] []]; intros H;
    try discriminate H; reflexivity.
Qed.

Lemma strtol_digits_stop (c : ascii) (r : string) (acc : Z) :
  decimal_digit c = false -> strtol_digits 10 (String c r) acc = acc.
Proof.
  destruct c as [[] [] [] [] [] [] [] []]; intros H;
    try discriminate H; reflexivity.
Qed.

Lemma strtol_digits_prefix (s rest : string) (acc : Z) :
  all_decimal s = true ->
  rest = "" \/ (exists c r, rest = String c r /\ decimal_digit c = false) ->
  strtol_digits 10 (s ++ rest)%string acc = strtol_digits 10 s acc.
Proof.
  intros Hs Hrest. revert acc Hs. induction s as [|x s IH]; intros acc Hs.
  - destruct Hrest as [->|(c & r & -> & Hc)]; [reflexivity|].
    now apply strtol_digits_stop.
  - simpl in Hs. apply andb_prop in Hs. destruct Hs as [Hx Hs].
    change (String x s ++ rest)%string with (String x (s ++ rest)%string).
    rewrite !strtol_digits_decimal by exact Hx. now apply IH.
Qed.

Lemma strtol_decimal (c : ascii) (r : string) :
  decimal_digit c = true -> (code c =? 48) = false ->
  strtol (String c r) 0 = Z.min LONG_MAX (strtol_digits 10 (String c r) 0).
Proof.
  destruct c as [[] [] [] [] [] [] [] []]; intros H H0;
    try discriminate H; try discriminate H0; reflexivity.
Qed.

Lemma strtol_decimal_prefix (numeral rest : string) :
  decimal_numeral numeral = true ->
  rest = "" \/ (exists c r, rest = String c r /\ decimal_digit c = false) ->
  strtol (numeral ++ rest)%string 0 = strtol numeral 0.
Proof.
  intros Hn Hrest. destruct numeral as [|x s]; [discriminate Hn|].
  simpl in Hn. apply andb_prop in Hn. destruct Hn as [Hn Hs].
  apply andb_prop in Hn. destruct Hn as [Hx H0].
  apply negb_true_iff in H0.
  change (String x s ++ rest)%string with (String x (s ++ rest)%string).
  rewrite !strtol_decimal by assumption.
  rewrite !strtol_digits_decimal by exact Hx.
  now rewrite strtol_digits_prefix.
Qed.

(** C7, as amended. An Integer option that is not the verbosity flag, given
    the text of its argument, appends to the store one put of the [int]
    value of [strtol(text, 0, 0)] under its name and goes on to the next
    token, in both modes; no text makes the call leave. This holds of the
    two switches themselves, and of every way the body reaches them: on the
    long path for a descriptor that is not deprecated, on the long path
    after a redirection to an Integer replacement, and on the short path.
    The conversion accepts the 0x and 0 prefixes, so [0x10] gives 16 and
    [010] gives 8. A text that does not begin with a number gives 0. A text
    that begins with a decimal numeral gives the value of that numeral
    whatever follows it: the characters after the numeral are ignored, so
    [12abc] gives 12, [5.5] gives 5 and [1e3] gives 1. *)
Theorem integer_coercion (host : host_t) (p_list : list module_t) (t : tables)
    (b : bool) (ev : getopt_call) (st : parse_state) (text : string) :
  optarg ev = Some text ->
  (forall p name fl st0,
      i_type p = CONFIG_ITEM_INTEGER ->
      long_switch host p name (Some text) fl st0
      = Continue (put (config_PutInt name (to_int (strtol text 0))) st0) /\
      puts (state_of (long_switch host p name (Some text) fl st0))
      = puts st0 ++ [config_PutInt name (to_int (strtol text 0))]) /\
  (forall p cmd st0,
      i_type p = CONFIG_ITEM_INTEGER ->
      cmd <> code "v" ->
      short_switch p cmd (Some text) st0
      = Continue (put (config_PutInt (psz_name p) (to_int (strtol text 0))) st0) /\
      puts (state_of (short_switch p cmd (Some text) st0))
      = puts st0 ++ [config_PutInt (psz_name p) (to_int (strtol text 0))]) /\
  (forall e entry p_conf,
      i_cmd ev = 0 ->
      nth_error (p_longopts t) (i_index ev) = Some e ->
      o_name e = Some entry ->
      config_FindConfig p_list (strip_no entry (flag ev)) = Some p_conf ->
      psz_current p_conf = None ->
      i_type p_conf = CONFIG_ITEM_INTEGER ->
      loop_body host p_list t b ev st
      = Continue (put (config_PutInt (strip_no entry (flag ev))
                         (to_int (strtol text 0))) st) /\
      puts (state_of (loop_body host p_list t b ev st))
      = puts st ++ [config_PutInt (psz_name p_conf) (to_int (strtol text 0))]) /\
  (forall e entry p_conf current p_new,
      i_cmd ev = 0 ->
      nth_error (p_longopts t) (i_index ev) = Some e ->
      o_name e = Some entry ->
      config_FindConfig p_list (strip_no entry (flag ev)) = Some p_conf ->
      psz_current p_conf = Some current ->
      b_strict p_conf = false ->
      config_FindConfig p_list current = Some p_new ->
      i_type p_new = CONFIG_ITEM_INTEGER ->
      loop_body host p_list t true ev st
      = Continue (put (config_PutInt current (to_int (strtol text 0)))
                    (print (warn_deprecated true p_conf current) st)) /\
      puts (state_of (loop_body host p_list t true ev st))
      = puts st ++ [config_PutInt current (to_int (strtol text 0))]) /\
  (forall p_short,
      i_cmd ev <> 0 ->
      i_cmd ev <> code "v" ->
      pp_shortopts t (i_cmd ev) = Some p_short ->
      i_type p_short = CONFIG_ITEM_INTEGER ->
      loop_body host p_list t b ev st
      = Continue (put (config_PutInt (psz_name p_short)
                         (to_int (strtol text 0))) st) /\
      puts (state_of (loop_body host p_list t b ev st))
      = puts st ++ [config_PutInt (psz_name p_short) (to_int (strtol text 0))]) /\
  to_int (strtol "0x10" 0) = 16 /\
  to_int (strtol "010" 0) = 8 /\
  to_int (strtol "notanumber" 0) = 0 /\
  (no_leading_number text = true -> to_int (strtol text 0) = 0) /\
  (forall numeral rest,
      text = (numeral ++ rest)%string ->
      decimal_numeral numeral = true ->
      rest = "" \/ (exists c r, rest = String c r /\ decimal_digit c = false) ->
      to_int (strtol text 0) = to_int (strtol numeral 0)) /\
  to_int (strtol "12" 0) = 12 /\
  to_int (strtol "12abc" 0) = 12 /\
  to_int (strtol "5.5" 0) = 5 /\
  to_int (strtol "1e3" 0) = 1.
Proof.
  intros Harg.
  assert (Hlong : forall p name fl st0,
             i_type p = CONFIG_ITEM_INTEGER ->
             long_switch host p name (Some text) fl st0
             = Continue (put (config_PutInt name (to_int (strtol text 0))) st0)).
  { intros p name fl st0 Hint. unfold long_switch. now rewrite Hint. }
  assert (Hshort : forall p cmd st0,
             i_type p = CONFIG_ITEM_INTEGER ->
             cmd <> code "v" ->
             short_switch p cmd (Some text) st0
             = Continue (put (config_PutInt (psz_name p)
                                (to_int (strtol text 0))) st0)).
  { intros p cmd st0 Hint Hnv. unfold short_switch. rewrite Hint.
    destruct (Z.eqb_spec cmd (code "v")); [contradiction | reflexivity]. }
  split.
  { intros p name fl st0 Hint. rewrite (Hlong p name fl st0 Hint).
    split; reflexivity. }
  split.
  { intros p cmd st0 Hint Hnv. rewrite (Hshort p cmd st0 Hint Hnv).
    split; reflexivity. }
  split.
  { intros e entry p_conf Hc Hn He Hf Hcur Hint.
    rewrite (loop_body_long host p_list t b ev st e entry p_conf Hc Hn He Hf).
    rewrite Hcur, Harg, (Hlong p_conf _ _ _ Hint).
    split; [reflexivity|].
    unfold config_FindConfig in Hf.
    destruct (find_item_some _ _ _ Hf) as (_ & _ & ->). reflexivity. }
  split.
  { intros e entry p_conf current p_new Hc Hn He Hf Hcur Hs Hnew Hint.
    rewrite (loop_body_long host p_list t true ev st e entry p_conf Hc Hn He Hf).
    rewrite Hcur, Hs, Hnew, Harg. simpl negb. cbv iota zeta.
    rewrite (Hlong p_new _ _ _ Hint). split; reflexivity. }
  split.
  { intros p_short Hnz Hnv Hp Hint. unfold loop_body.
    destruct (Z.eqb_spec (i_cmd ev) 0); [contradiction|].
    rewrite Hp, Harg, (Hshort p_short _ _ Hint Hnv). split; reflexivity. }
  repeat split.
  - intros H. now rewrite (strtol_no_leading_number text H).
  - intros numeral rest -> Hn Hrest.
    now rewrite (strtol_decimal_prefix numeral rest Hn Hrest).
Qed.

Lemma integer_coercion_witness :
  puts (state_of
          (loop_body Sample.host Sample.registry
             (build_tables (fun _ => true) Sample.registry 2) false
             {| i_cmd := 0; optarg := Some "12abc"; optind := 2; optopt := 63;
                i_index := 4; flag := 0; scanned := ["vlc"; "--width=12abc"] |}
             (initial_state {| caller_array := ["vlc"; "--width=12abc"];
                               private_copy := None |})))
  = [config_PutInt "width" (to_int (strtol "12" 0))] /\
  to_int (strtol "12" 0) = 12.
Proof.
  destruct (integer_coercion Sample.host Sample.registry
              (build_tables (fun _ => true) Sample.registry 2) false
              {| i_cmd := 0; optarg := Some "12abc"; optind := 2;
                 optopt := 63; i_index := 4; flag := 0;
                 scanned := ["vlc"; "--width=12abc"] |}
              (initial_state {| caller_array := ["vlc"; "--width=12abc"];
                                private_copy := None |})
              "12abc" eq_refl)
    as (_ & _ & Hbody & _ & _ & _ & _ & _ & _ & Hprefix & H12 & _).
  split; [|exact H12].
  rewrite (proj2 (Hbody
             (primary_entry (Sample.item "width" "w" CONFIG_ITEM_INTEGER None false))
             "width" (Sample.item "width" "w" CONFIG_ITEM_INTEGER None false)
             eq_refl eq_refl eq_refl eq_refl eq_refl eq_refl)).
  rewrite (Hprefix "12" "abc" eq_refl eq_refl).
  - reflexivity.
  - right. exists "a"%char, "bc". split; reflexivity.
Defined.

(** C7, the claim as stated fails: the text [12abc] is not a numeral, and
    the strict call given [--width=12abc] puts 12 under [width], not 0;
    [--width 5.5] puts 5 in permissive mode. *)
Lemma integer_coercion_counterexample :
  all_decimal "12abc" = false /\
  config_LoadCmdLine Sample.host Sample.registry ["vlc"; "--width=12abc"] false
  = Return 0
      {| i_verbose := 0; puts := [config_PutInt "width" 12]; log := [];
         mem := {| caller_array := ["vlc"; "--width=12abc"];
                   private_copy := None |} |} /\
  all_decimal "5.5" = false /\
  config_LoadCmdLine Sample.host Sample.registry ["vlc"; "--width"; "5.5"] true
  = Return 0
      {| i_verbose := 0; puts := [config_PutInt "width" 5]; log := [];
         mem := {| caller_array := ["vlc"; "--width"; "5.5"];
                   private_copy := None |} |}.
Proof. repeat split; vm_compute; reflexivity. Qed.

(* ================================================================== *)
(** ** The parsing loop                                               *)
(* ================================================================== *)

Lemma parse_calls_app (host : host_t) (p_list : list module_t) (t : tables)
    (b : bool) (ref : argv_ref) (pre post : list getopt_call) (st : parse_state) :
  parse_calls host p_list t b ref (pre ++ post) st
  = match parse_calls host p_list t b ref pre st with
    | Continue st1 => parse_calls host p_list t b ref post st1
    | o => o
    end.
Proof.
  revert st. induction pre as [|ev pre IH]; intros st; simpl; [reflexivity|].
  destruct (loop_body host p_list t b ev _); try reflexivity. apply IH.
Qed.

Lemma store_argv_twice (ref : argv_ref) (l l' : list string) (m : memory) :
  store_argv ref l (store_argv ref l' m) = store_argv ref l m.
Proof. destruct ref; reflexivity. Qed.

(** The array left by a call is overwritten by the next one, so a state
    that differs only there runs the rest of the loop alike. *)
Lemma parse_loop_restore (host : host_t) (p_list : list module_t) (t : tables)
    (b : bool) (ref : argv_ref) (evs : list getopt_call) (final l : list string)
    (st : parse_state) :
  parse_loop host p_list t b ref evs final
    (set_mem (store_argv ref l (mem st)) st)
  = parse_loop host p_list t b ref evs final st.
Proof.
  unfold parse_loop. destruct evs as [|ev r]; simpl.
  - now rewrite store_argv_twice.
  - now rewrite store_argv_twice.
Qed.

Lemma loop_body_unknown_block (host : host_t) (p_list : list module_t)
    (t : tables) (b : bool) (ev : getopt_call) (st : parse_state) :
  reaches_unknown_block p_list t ev ->
  loop_body host p_list t b ev st
  = if negb b then Return (-1) (print (unknown_option host ev) st)
    else Continue st.
Proof.
  intros [Hs Hl]. unfold loop_body.
  destruct (Z.eqb_spec (i_cmd ev) 0) as [Hz|Hz].
  - destruct (Hl Hz) as (e & entry & Hn & He & Hf).
    unfold long_branch. rewrite Hn. destruct e as [nm ha v]; simpl in He.
    subst nm. rewrite Hf, Hs. reflexivity.
  - rewrite Hs. reflexivity.
Qed.

Lemma long_switch_no_return (host : host_t) (p : module_config_t) (name : string)
    (arg : option string) (fl : Z) (st : parse_state) :
  status_of (long_switch host p name arg fl st) = None.
Proof.
  unfold long_switch. destruct (i_type p); try reflexivity;
    destruct arg; reflexivity.
Qed.

Lemma short_switch_no_return (p : module_config_t) (cmd : Z)
    (arg : option string) (st : parse_state) :
  status_of (short_switch p cmd arg st) = None.
Proof.
  unfold short_switch. destruct (i_type p); try reflexivity;
    try (destruct arg; reflexivity).
  destruct (cmd =? code "v"); [reflexivity | destruct arg; reflexivity].
Qed.

(** In permissive mode no iteration leaves the call. *)
Lemma loop_body_permissive (host : host_t) (p_list : list module_t)
    (t : tables) (ev : getopt_call) (st : parse_state) :
  status_of (loop_body host p_list t true ev st) = None.
Proof.
  unfold loop_body.
  assert (Hshort :
            status_of match pp_shortopts t (i_cmd ev) with
                      | Some p_short => short_switch p_short (i_cmd ev) (optarg ev) st
                      | None => Continue st
                      end = None).
  { destruct (pp_shortopts t (i_cmd ev));
      [apply short_switch_no_return | reflexivity]. }
  destruct (i_cmd ev =? 0); [|exact Hshort].
  unfold long_branch.
  destruct (nth_error (p_longopts t) (i_index ev)) as [[[entry|] ha v]|];
    try reflexivity.
  destruct (config_FindConfig p_list (strip_no entry (flag ev))) as [p_conf|];
    [|exact Hshort].
  destruct (psz_current p_conf) as [current|]; [|apply long_switch_no_return].
  destruct (b_strict p_conf); [reflexivity|]. simpl.
  destruct (config_FindConfig p_list current);
    [apply long_switch_no_return | reflexivity].
Qed.

Lemma parse_calls_permissive (host : host_t) (p_list : list module_t)
    (t : tables) (ref : argv_ref) (evs : list getopt_call) (st : parse_state) :
  status_of (parse_calls host p_list t true ref evs st) = None.
Proof.
  revert st. induction evs as [|ev r IH]; intros st; simpl; [reflexivity|].
  pose proof (loop_body_permissive host p_list t ev
                (set_mem (store_argv ref (scanned ev) (mem st)) st)) as H.
  destruct (loop_body host p_list t true ev _); try exact H. apply IH.
Qed.

(** The call once its three arrays are allocated. *)
Lemma config_LoadCmdLine_allocated (host : host_t) (p_list : list module_t)
    (argv : list string) (b : bool) (evs : list getopt_call)
    (final : list string) :
  malloc_ok host 0 = true ->
  malloc_ok host 1 = true ->
  (b = true -> malloc_ok host 2 = true) ->
  getopt_long argv
    (psz_shortopts (build_tables (malloc_ok host) p_list (if b then 3 else 2)))
    (p_longopts (build_tables (malloc_ok host) p_list (if b then 3 else 2)))
    (List.length (p_longopts (build_tables (malloc_ok host) p_list
                                (if b then 3 else 2))) - 1)
  = (evs, final) ->
  config_LoadCmdLine host p_list argv b
  = match parse_loop host p_list
            (build_tables (malloc_ok host) p_list (if b then 3 else 2)) b
            (if b then PrivateCopy else CallerArray) evs final
            (initial_state
               {| caller_array := argv;
                  private_copy := if b then Some argv else None |}) with
    | Continue st =>
        Return 0 (if b then set_mem (free_copy (mem st)) st else st)
    | o => o
    end.
Proof.
  intros H0 H1 H2 Hscan. unfold config_LoadCmdLine.
  rewrite H0, H1. simpl negb. cbv iota.
  destruct b.
  - rewrite (H2 eq_refl). simpl. simpl in Hscan. rewrite Hscan. reflexivity.
  - simpl. simpl in Hscan. rewrite Hscan. reflexivity.
Qed.

(** Let the scan of argv yield, somewhere, a call that reaches the last
    block of the body. In strict mode, if the options in front of it were
    processed without leaving the call, the call prints the diagnostic and
    returns -1 with the puts made so far, whatever follows. In permissive
    mode the call ends as it would without that token: the remaining options
    are processed alike, nothing is put or printed for the token, and a call
    that comes to its end returns 0. *)
Lemma unknown_option_policy (host : host_t) (p_list : list module_t)
    (argv : list string) (b : bool) (pre post : list getopt_call)
    (ev : getopt_call) (final : list string) :
  malloc_ok host 0 = true ->
  malloc_ok host 1 = true ->
  (b = true -> malloc_ok host 2 = true) ->
  getopt_long argv
    (psz_shortopts (build_tables (malloc_ok host) p_list (if b then 3 else 2)))
    (p_longopts (build_tables (malloc_ok host) p_list (if b then 3 else 2)))
    (List.length (p_longopts (build_tables (malloc_ok host) p_list
                                (if b then 3 else 2))) - 1)
  = (pre ++ ev :: post, final) ->
  reaches_unknown_block p_list (build_tables (malloc_ok host) p_list (if b then 3 else 2)) ev ->
  (b = false ->
   forall st,
     parse_calls host p_list (build_tables (malloc_ok host) p_list 2) false
       CallerArray pre
       (initial_state {| caller_array := argv; private_copy := None |})
     = Continue st ->
     config_LoadCmdLine host p_list argv false
     = Return (-1)
         (print (unknown_option host ev)
            (set_mem (store_argv CallerArray (scanned ev) (mem st)) st))) /\
  (b = true ->
   config_LoadCmdLine host p_list argv true
   = match parse_loop host p_list (build_tables (malloc_ok host) p_list 3) true
             PrivateCopy (pre ++ post) final
             (initial_state {| caller_array := argv; private_copy := Some argv |}) with
     | Continue st => Return 0 (set_mem (free_copy (mem st)) st)
     | o => o
     end /\
   forall z, status_of (config_LoadCmdLine host p_list argv true) = Some z -> z = 0).
Proof.
  intros H0 H1 H2 Hscan Hun.
  pose proof (config_LoadCmdLine_allocated host p_list argv b _ _ H0 H1 H2 Hscan)
    as Hcall.
  split; intros ->; simpl in *.
  - intros st Hpre. rewrite Hcall. unfold parse_loop.
    rewrite parse_calls_app, Hpre. simpl.
    rewrite (loop_body_unknown_block host p_list _ false ev _ Hun). reflexivity.
  - assert (Hskip :
      parse_loop host p_list (build_tables (malloc_ok host) p_list 3) true
        PrivateCopy (pre ++ ev :: post) final
        (initial_state {| caller_array := argv; private_copy := Some argv |})
      = parse_loop host p_list (build_tables (malloc_ok host) p_list 3) true
          PrivateCopy (pre ++ post) final
          (initial_state {| caller_array := argv; private_copy := Some argv |})).
    { unfold parse_loop. rewrite !parse_calls_app.
      destruct (parse_calls host p_list _ true PrivateCopy pre _) as [st| |];
        try reflexivity.
      simpl parse_calls at 1.
      rewrite (loop_body_unknown_block host p_list _ true ev _ Hun). simpl.
      apply (parse_loop_restore host p_list _ true PrivateCopy post final
               (scanned ev) st). }
    rewrite Hcall, Hskip. split; [reflexivity|].
    intros z. unfold parse_loop.
    pose proof (parse_calls_permissive host p_list
                  (build_tables (malloc_ok host) p_list 3) PrivateCopy
                  (pre ++ post)
                  (initial_state {| caller_array := argv;
                                    private_copy := Some argv |})) as Hp.
    destruct (parse_calls host p_list _ true PrivateCopy (pre ++ post) _);
      simpl in *; congruence.
Qed.

Lemma unknown_option_policy_bogus :
  config_LoadCmdLine Sample.host Sample.registry
    ["vlc"; "-f"; "--bogus"; "-v"] false
  = Return (-1)
      {| i_verbose := 0;
         puts := [config_PutInt "fullscreen" 1];
         log := [stderr "vlc: unknown option or missing mandatory argument ";
                 stderr ("`--bogus'" ++ nl)%string;
                 stderr ("Try `vlc --help' for more information." ++ nl)%string];
         mem := {| caller_array := ["vlc"; "-f"; "--bogus"; "-v"];
                   private_copy := None |} |}.
Proof.
  assert (Hun : reaches_unknown_block Sample.registry
                  (build_tables (malloc_ok Sample.host) Sample.registry 2)
                  {| i_cmd := 63; optarg := None; optind := 3; optopt := 0;
                     i_index := 12; flag := 0;
                     scanned := ["vlc"; "-f"; "--bogus"; "-v"] |}).
  { split; [reflexivity | intros H; discriminate H]. }
  assert (H2 : false = true -> malloc_ok Sample.host 2 = true)
    by (intros H; discriminate H).
  exact (proj1 (unknown_option_policy Sample.host Sample.registry
                  ["vlc"; "-f"; "--bogus"; "-v"] false
                  [{| i_cmd := 102; optarg := None; optind := 2; optopt := 63;
                      i_index := 12; flag := 0;
                      scanned := ["vlc"; "-f"; "--bogus"; "-v"] |}]
                  [{| i_cmd := 118; optarg := None; optind := 4; optopt := 0;
                      i_index := 12; flag := 0;
                      scanned := ["vlc"; "-f"; "--bogus"; "-v"] |}]
                  _ ["vlc"; "-f"; "--bogus"; "-v"]
                  eq_refl eq_refl H2 eq_refl Hun)
           eq_refl
           {| i_verbose := 0; puts := [config_PutInt "fullscreen" 1]; log := [];
              mem := {| caller_array := ["vlc"; "-f"; "--bogus"; "-v"];
                        private_copy := None |} |}
           eq_refl).
Defined.

(** C5, at a failing input. The registry holds a Bool descriptor [help]
    with the short flag [?], which is also the value the scanner returns for
    a token it does not know. The body looks the value returned up in the
    short table before it comes to the report of an unknown option. No long
    entry is named [bogus] and the scanner returns [?] for [--bogus]; the
    strict call takes it for the flag, puts 1 under [help], goes on to
    [-w 3] and returns 0 with nothing printed, and the permissive call puts
    1 under [help] as well. With the sample registry, the permissive call
    that skips [--bogus] goes on to [--old-ghost=x], whose replacement is
    not registered, and does not return. *)
Theorem unknown_token_run :
  ~ In (Some "bogus")
       (map o_name (p_longopts (build_tables (malloc_ok Sample.host)
                                  Sample.help_registry 2))) /\
  fst (getopt_long ["vlc"; "--bogus"; "-w"; "3"]
         (psz_shortopts (build_tables (malloc_ok Sample.host) Sample.help_registry 2))
         (p_longopts (build_tables (malloc_ok Sample.host) Sample.help_registry 2))
         4)
  = [{| i_cmd := code "?"; optarg := None; optind := 2; optopt := 0;
        i_index := 4; flag := 0; scanned := ["vlc"; "--bogus"; "-w"; "3"] |};
     {| i_cmd := code "w"; optarg := Some "3"; optind := 4; optopt := 0;
        i_index := 4; flag := 0; scanned := ["vlc"; "--bogus"; "-w"; "3"] |}] /\
  config_LoadCmdLine Sample.host Sample.help_registry
    ["vlc"; "--bogus"; "-w"; "3"] false
  = Return 0
      {| i_verbose := 0;
         puts := [config_PutInt "help" 1; config_PutInt "width" 3];
         log := [];
         mem := {| caller_array := ["vlc"; "--bogus"; "-w"; "3"];
                   private_copy := None |} |} /\
  config_LoadCmdLine Sample.host Sample.help_registry ["vlc"; "--bogus"] true
  = Return 0
      {| i_verbose := 0; puts := [config_PutInt "help" 1]; log := [];
         mem := {| caller_array := ["vlc"; "--bogus"]; private_copy := None |} |} /\
  config_LoadCmdLine Sample.host Sample.registry
    ["vlc"; "--bogus"; "--old-ghost=x"] true
  = Fault
      {| i_verbose := 0; puts := [];
         log := warn_deprecated true
                  (Sample.item "old-ghost" Sample.NUL CONFIG_ITEM_STRING
                               (Some "ghost") false) "ghost";
         mem := {| caller_array := ["vlc"; "--bogus"; "--old-ghost=x"];
                   private_copy := Some ["vlc"; "--bogus"; "--old-ghost=x"] |} |}.
Proof.
  split; [vm_compute; intuition discriminate|].
  repeat split; vm_compute; reflexivity.
Qed.

(* ================================================================== *)
(** ** Ownership of argv                                              *)
(* ================================================================== *)

Lemma long_switch_mem (host : host_t) (p : module_config_t) (name : string)
    (arg : option string) (fl : Z) (st : parse_state) :
  mem (state_of (long_switch host p name arg fl st)) = mem st.
Proof.
  unfold long_switch. destruct (i_type p); try reflexivity;
    destruct arg; reflexivity.
Qed.

Lemma short_switch_mem (p : module_config_t) (cmd : Z) (arg : option string)
    (st : parse_state) :
  mem (state_of (short_switch p cmd arg st)) = mem st.
Proof.
  unfold short_switch. destruct (i_type p); try reflexivity;
    try (destruct arg; reflexivity).
  destruct (cmd =? code "v"); [reflexivity | destruct arg; reflexivity].
Qed.

(** The body of the loop writes to neither array. *)
Lemma loop_body_mem (host : host_t) (p_list : list module_t) (t : tables)
    (b : bool) (ev : getopt_call) (st : parse_state) :
  mem (state_of (loop_body host p_list t b ev st)) = mem st.
Proof.
  unfold loop_body.
  assert (Hshort :
            mem (state_of
                   match pp_shortopts t (i_cmd ev) with
                   | Some p_short => short_switch p_short (i_cmd ev) (optarg ev) st
                   | None => if negb b
                             then Return (-1) (print (unknown_option host ev) st)
                             else Continue st
                   end) = mem st).
  { destruct (pp_shortopts t (i_cmd ev));
      [apply short_switch_mem | destruct b; reflexivity]. }
  destruct (i_cmd ev =? 0); [|exact Hshort].
  unfold long_branch.
  destruct (nth_error (p_longopts t) (i_index ev)) as [[[entry|] ha v]|];
    try reflexivity.
  destruct (config_FindConfig p_list (strip_no entry (flag ev))) as [p_conf|];
    [|exact Hshort].
  destruct (psz_current p_conf) as [current|]; [|apply long_switch_mem].
  destruct (b_strict p_conf); [reflexivity|].
  destruct b; simpl; [|reflexivity].
  destruct (config_FindConfig p_list current);
    [now rewrite long_switch_mem | reflexivity].
Qed.

(** A loop that scans the duplicate leaves the array of the caller alone. *)
Lemma parse_calls_private (host : host_t) (p_list : list module_t) (t : tables)
    (b : bool) (evs : list getopt_call) (st : parse_state) :
  caller_array (mem (state_of (parse_calls host p_list t b PrivateCopy evs st)))
  = caller_array (mem st).
Proof.
  revert st. induction evs as [|ev r IH]; intros st; simpl; [reflexivity|].
  pose proof (loop_body_mem host p_list t b ev
                (set_mem (store_argv PrivateCopy (scanned ev) (mem st)) st)) as H.
  destruct (loop_body host p_list t b ev _) as [st2| |]; simpl in H.
  - rewrite IH, H. reflexivity.
  - simpl. now rewrite H.
  - simpl. now rewrite H.
Qed.

Lemma parse_loop_private (host : host_t) (p_list : list module_t) (t : tables)
    (b : bool) (evs : list getopt_call) (final : list string) (st : parse_state) :
  caller_array (mem (state_of (parse_loop host p_list t b PrivateCopy evs final st)))
  = caller_array (mem st).
Proof.
  unfold parse_loop.
  pose proof (parse_calls_private host p_list t b evs st) as H.
  destruct (parse_calls host p_list t b PrivateCopy evs st); exact H.
Qed.

(** C8. Whatever the registry, argv and the fate of the allocations, a call
    in permissive mode leaves the array of the caller as it was: the scan
    permutes the duplicate, which alone receives the array the scanner
    leaves. In strict mode the scan works on the array of the caller and
    reorders it: [vlc movie.avi -f] becomes [vlc -f movie.avi]. *)
Theorem permissive_keeps_argv :
  (forall host p_list argv,
      caller_array (mem (state_of (config_LoadCmdLine host p_list argv true)))
      = argv) /\
  (forall host p_list t b evs final st,
      caller_array
        (mem (state_of (parse_loop host p_list t b PrivateCopy evs final st)))
      = caller_array (mem st) /\
      match parse_loop host p_list t b PrivateCopy evs final st with
      | Continue st1 => private_copy (mem st1) = Some final
      | _ => True
      end) /\
  config_LoadCmdLine Sample.host Sample.registry ["vlc"; "movie.avi"; "-f"] false
  = Return 0
      {| i_verbose := 0; puts := [config_PutInt "fullscreen" 1]; log := [];
         mem := {| caller_array := ["vlc"; "-f"; "movie.avi"];
                   private_copy := None |} |} /\
  config_LoadCmdLine Sample.host Sample.registry ["vlc"; "movie.avi"; "-f"] true
  = Return 0
      {| i_verbose := 0; puts := [config_PutInt "fullscreen" 1]; log := [];
         mem := {| caller_array := ["vlc"; "movie.avi"; "-f"];
                   private_copy := None |} |}.
Proof.
  split; [|split; [|split; vm_compute; reflexivity]].
  - intros host p_list argv. unfold config_LoadCmdLine.
    destruct (malloc_ok host 0); [|reflexivity].
    destruct (malloc_ok host 1); [|reflexivity].
    destruct (malloc_ok host 2); [|reflexivity].
    simpl.
    destruct (getopt_long argv _ _ _) as [evs final].
    pose proof (parse_loop_private host p_list
                  (build_tables (malloc_ok host) p_list 3) true evs final
                  (initial_state {| caller_array := argv;
                                    private_copy := Some argv |})) as H.
    destruct (parse_loop host p_list _ true PrivateCopy evs final _);
      simpl in *; exact H.
  - intros host p_list t b evs final st. split.
    + apply parse_loop_private.
    + unfold parse_loop.
      destruct (parse_calls host p_list t b PrivateCopy evs st); simpl; auto.
Qed.

(* ================================================================== *)
(** ** What the scanner hands to the loop                             *)
(* ================================================================== *)

Lemma long_lookup_sound (nm : string) (tbl : list struct_option) (k i : nat)
    (e : struct_option) :
  long_lookup nm tbl k = Some (i, e) ->
  exists j, i = (k + j)%nat /\ nth_error tbl j = Some e /\ o_name e = Some nm.
Proof.
  revert k. induction tbl as [|x tbl IH]; intros k; simpl; [discriminate|].
  destruct (o_name x) as [n|] eqn:Hn; [|discriminate].
  destruct (String.eqb_spec n nm) as [->|Hne].
  - intros H; injection H as <- <-. exists 0%nat. repeat split; auto; lia.
  - intros H. destruct (IH _ H) as (j & -> & Hj & He).
    exists (S j). repeat split; auto; lia.
Qed.

Lemma scan_long_zero (tbl : list struct_option) (body : string)
    (next : option string) (oo : Z) (li : nat) (fl : Z)
    (ret : Z) (arg : option string) (oo' : Z) (n li' : nat) (fl' : Z) :
  scan_long tbl body next oo li fl = (ret, arg, oo', n, li', fl') ->
  ret = 0 ->
  exists e entry,
    nth_error tbl li' = Some e /\ o_name e = Some entry /\ fl' = val e.
Proof.
  unfold scan_long. destruct (split_eq body) as [nm a].
  destruct (long_lookup nm tbl 0) as [[i e]|] eqn:Hl.
  - apply long_lookup_sound in Hl as (j & -> & Hj & He).
    destruct a as [v|].
    + destruct (has_arg e =? 0); intros H; injection H as <- <- <- <- <- <-;
        intros Hz; try discriminate Hz.
      exists e, nm. auto.
    + destruct (has_arg e =? 1); [destruct next|];
        intros H; injection H as <- <- <- <- <- <-;
        intros Hz; try discriminate Hz; exists e, nm; auto.
  - intros H; injection H as <- <- <- <- <- <-. discriminate.
Qed.

Lemma short_lookup_occurs (c : ascii) (spec : string) (m : arg_mode) :
  short_lookup c spec = Some m -> occurs c spec.
Proof.
  induction spec as [|x r IH]; simpl; [discriminate|].
  destruct (Ascii.eqb_spec x c) as [->|Hne]; simpl.
  - intros _. now left.
  - intros H. right. now apply IH.
Qed.

Lemma code_zero (c : ascii) : code c = 0 -> c = ascii_of_nat 0.
Proof.
  unfold code. intros H.
  rewrite <- (ascii_nat_embedding c). f_equal. lia.
Qed.

Lemma scan_cluster_nonzero (spec chars : string) (next : option string) (oo : Z) :
  ~ occurs (ascii_of_nat 0) spec ->
  Forall (fun x : Z * option string * Z * nat =>
            let '(ret, _, _, _) := x in ret <> 0)
         (scan_cluster spec chars next oo).
Proof.
  intros Hnul. revert oo.
  assert (Hc : forall c m, short_lookup c spec = Some m -> code c <> 0).
  { intros c m Hl Hz. apply code_zero in Hz. subst c.
    apply Hnul. eapply short_lookup_occurs; eauto. }
  induction chars as [|c cs IH]; intros oo; simpl; [constructor|].
  destruct (short_lookup c spec) as [[| |]|] eqn:Hl.
  - constructor; [eapply Hc; eauto | apply IH].
  - destruct (negb (is_empty cs)); [|destruct next];
      repeat constructor; try (eapply Hc; eauto); discriminate.
  - repeat constructor. eapply Hc; eauto.
  - constructor; [discriminate | apply IH].
Qed.

(** Whenever the scanner returns zero it has matched a long entry: the
    loop then reads a named entry at [i_index] and the [val] of that entry
    in [flag]. *)
Lemma getopt_scan_zero (spec : string) (tbl : list struct_option)
    (argv0 : string) (rest : list string) :
  ~ occurs (ascii_of_nat 0) spec ->
  forall skip done nonopts oo li fl ev,
    In ev (fst (getopt_scan spec tbl argv0 rest skip done nonopts oo li fl)) ->
    i_cmd ev = 0 -> long_match tbl ev.
Proof.
  intros Hnul. induction rest as [|t r IH];
    intros skip done nonopts oo li fl ev; simpl; [tauto|].
  destruct skip; [apply IH|].
  destruct t as [|c0 t0]; [apply IH|].
  destruct (Ascii.eqb_spec c0 "-") as [->|Hc0].
  2:{ destruct c0 as [[] [] [] [] [] [] [] []]; try apply IH.
      contradiction Hc0; reflexivity. }
  destruct t0 as [|c1 t1]; [apply IH|].
  destruct (Ascii.eqb_spec c1 "-") as [->|Hc1].
  - destruct t1 as [|c2 t2]; [simpl; tauto|].
    destruct (scan_long tbl (String c2 t2) _ oo li fl)
      as [[[[[ret arg] oo'] n] li'] fl'] eqn:Hs.
    destruct (getopt_scan spec tbl argv0 r _ _ nonopts oo' li' fl')
      as [evs fin] eqn:Hr.
    simpl. intros [<-|Hin] Hz.
    + simpl in Hz. unfold long_match. simpl.
      eapply scan_long_zero; eauto.
    + eapply IH; [|exact Hz]. rewrite Hr. exact Hin.
  - assert (Hgoal :
      In ev (fst (let raw := scan_cluster spec (String c1 t1)
                                match r with a :: _ => Some a | [] => None end oo in
                  let n := last_moved raw in
                  let '(evs, fin) :=
                    getopt_scan spec tbl argv0 r (Nat.eqb n 2)
                      (match n, r with
                       | 2%nat, a :: _ => done ++ [String "-" (String c1 t1); a]
                       | _, _ => done ++ [String "-" (String c1 t1)]
                       end) nonopts (last_optopt raw oo) li fl in
                  (map (fun x : Z * option string * Z * nat =>
                          let '(ret, arg, o, k) := x in
                          {| i_cmd := ret; optarg := arg;
                             optind := (1 + List.length done
                                        + List.length nonopts + k)%nat;
                             optopt := o; i_index := li; flag := fl;
                             scanned := argv0 :: done ++ nonopts
                                        ++ String "-" (String c1 t1) :: r |}) raw
                   ++ evs, fin))) ->
      i_cmd ev = 0 -> long_match tbl ev).
    { cbv zeta.
      destruct (getopt_scan spec tbl argv0 r _ _ nonopts _ li fl)
        as [evs fin] eqn:Hr.
      simpl. intros Hin Hz. apply in_app_or in Hin as [Hin|Hin].
      - exfalso. apply in_map_iff in Hin as ([[[ret arg] o] k] & <- & Hraw).
        pose proof (scan_cluster_nonzero spec (String c1 t1)
                      match r with a :: _ => Some a | [] => None end oo Hnul) as Hall.
        rewrite Forall_forall in Hall. apply (Hall _ Hraw). exact Hz.
      - eapply IH; [|exact Hz]. rewrite Hr. exact Hin. }
    destruct c1 as [[] [] [] [] [] [] [] []]; try exact Hgoal.
    contradiction Hc1; reflexivity.
Qed.

Lemma occurs_app (c : ascii) (a b : string) :
  occurs c (a ++ b)%string <-> occurs c a \/ occurs c b.
Proof.
  induction a as [|x a IH]; simpl; [tauto|]. rewrite IH. tauto.
Qed.

Lemma add_short_no_nul (d : module_config_t) (t : tables) :
  ~ occurs (ascii_of_nat 0) (psz_shortopts t) ->
  ~ occurs (ascii_of_nat 0) (psz_shortopts (add_short d t)).
Proof.
  intros H.
  destruct (Z.eq_dec (code (i_short d)) 0) as [Hz|Hz].
  - unfold add_short. rewrite Hz. exact H.
  - rewrite (add_short_spec d t Hz).
    rewrite occurs_app. intros [Ho|Ho]; [now apply H|].
    unfold short_spec in Ho. simpl in Ho. destruct Ho as [Ho|Ho].
    + apply Hz. rewrite Ho. reflexivity.
    + destruct (is_bool (i_type d)); [exact Ho|].
      destruct (Ascii.eqb (i_short d) "v"); simpl in Ho;
        repeat (destruct Ho as [Ho|Ho]; [discriminate Ho|]); exact Ho.
Qed.

Lemma add_item_no_nul (alloc_ok : nat -> bool) (d : module_config_t) (t : tables) :
  ~ occurs (ascii_of_nat 0) (psz_shortopts t) ->
  ~ occurs (ascii_of_nat 0) (psz_shortopts (add_item alloc_ok d t)).
Proof.
  intros H. unfold add_item.
  destruct (is_hint (i_type d)); [exact H|].
  destruct (alloc_ok (n_alloc t)); simpl; [|exact H].
  destruct (is_bool (i_type d)).
  - destruct (alloc_ok _); simpl; [|exact H].
    destruct (alloc_ok _); simpl; [|exact H].
    apply add_short_no_nul. exact H.
  - apply add_short_no_nul. exact H.
Qed.

Lemma build_tables_no_nul (alloc_ok : nat -> bool) (p_list : list module_t)
    (n : nat) :
  ~ occurs (ascii_of_nat 0) (psz_shortopts (build_tables alloc_ok p_list n)).
Proof.
  unfold build_tables, close_tables, push_long, fill_tables. simpl.
  assert (Hitems : forall l t,
             ~ occurs (ascii_of_nat 0) (psz_shortopts t) ->
             ~ occurs (ascii_of_nat 0)
                 (psz_shortopts
                    (fold_left (fun acc p_item => add_item alloc_ok p_item acc) l t))).
  { induction l as [|d l IH]; intros t Ht; simpl; [exact Ht|].
    apply IH. now apply add_item_no_nul. }
  assert (Hmods : forall l t,
             ~ occurs (ascii_of_nat 0) (psz_shortopts t) ->
             ~ occurs (ascii_of_nat 0)
                 (psz_shortopts
                    (fold_left (fun acc p_parser => add_module alloc_ok p_parser acc)
                               l t))).
  { induction l as [|m l IH]; intros t Ht; simpl; [exact Ht|].
    apply IH. unfold add_module.
    destruct (i_config_items m =? 0)%nat; [exact Ht | now apply Hitems]. }
  apply Hmods. simpl. tauto.
Qed.

(** In a call, every zero returned by the scanner comes with a named entry
    of the generated table at [i_index] and its [val] in [flag]. *)
Lemma scanned_long_match (alloc_ok : nat -> bool) (p_list : list module_t)
    (n k : nat) (argv : list string) (ev : getopt_call) :
  In ev (fst (getopt_long argv
                (psz_shortopts (build_tables alloc_ok p_list n))
                (p_longopts (build_tables alloc_ok p_list n)) k)) ->
  i_cmd ev = 0 ->
  long_match (p_longopts (build_tables alloc_ok p_list n)) ev.
Proof.
  unfold getopt_long. destruct argv as [|argv0 rest]; simpl; [tauto|].
  apply getopt_scan_zero. apply build_tables_no_nul.
Qed.

(* ================================================================== *)
(** ** The direct-address table of short flags                        *)
(* ================================================================== *)

Lemma add_short_pp (d : module_config_t) (t : tables) (i : Z) :
  pp_shortopts (add_short d t) i
  = if claims_flag i d then Some d else pp_shortopts t i.
Proof.
  unfold add_short, claims_flag.
  destruct (Z.eqb_spec (code (i_short d)) 0) as [Hz|Hz]; simpl; [reflexivity|].
  rewrite (Z.eqb_sym (code (i_short d)) i). reflexivity.
Qed.

Lemma add_item_pp (alloc_ok : nat -> bool) (d : module_config_t) (t : tables)
    (i : Z) :
  (forall k, alloc_ok k = true) ->
  pp_shortopts (add_item alloc_ok d t) i
  = if non_hint d && claims_flag i d then Some d else pp_shortopts t i.
Proof.
  intros Halloc. unfold add_item, non_hint.
  destruct (is_hint (i_type d)); simpl; [reflexivity|].
  rewrite Halloc; simpl.
  destruct (is_bool (i_type d)); rewrite ?Halloc; simpl;
    rewrite add_short_pp; reflexivity.
Qed.

Lemma last_with_flag_snoc (i : Z) (l : list module_config_t) (d : module_config_t) :
  last_with_flag i (l ++ [d])
  = if claims_flag i d then Some d else last_with_flag i l.
Proof. unfold last_with_flag. rewrite rev_app_distr. reflexivity. Qed.

Lemma last_with_flag_app (i : Z) (l1 l2 : list module_config_t) :
  last_with_flag i (l1 ++ l2)
  = match last_with_flag i l2 with
    | Some d => Some d
    | None => last_with_flag i l1
    end.
Proof.
  induction l2 as [|d l2 IH] using rev_ind.
  - now rewrite app_nil_r.
  - rewrite app_assoc, !last_with_flag_snoc.
    destruct (claims_flag i d); [reflexivity | exact IH].
Qed.

Lemma add_items_pp (alloc_ok : nat -> bool) (l : list module_config_t)
    (t : tables) (i : Z) :
  (forall k, alloc_ok k = true) ->
  pp_shortopts (fold_left (fun acc p_item => add_item alloc_ok p_item acc) l t) i
  = match last_with_flag i (filter non_hint l) with
    | Some d => Some d
    | None => pp_shortopts t i
    end.
Proof.
  intros Halloc. revert t. induction l as [|d l IH]; intros t; [reflexivity|].
  cbn [fold_left filter]. rewrite IH, (add_item_pp alloc_ok d t i Halloc).
  destruct (non_hint d); simpl.
  - change (d :: filter non_hint l) with ([d] ++ filter non_hint l).
    rewrite last_with_flag_app.
    destruct (last_with_flag i (filter non_hint l)); [reflexivity|].
    unfold last_with_flag. simpl. destruct (claims_flag i d); reflexivity.
  - reflexivity.
Qed.

Lemma fill_tables_pp (alloc_ok : nat -> bool) (p_list : list module_t)
    (t : tables) (i : Z) :
  (forall k, alloc_ok k = true) ->
  pp_shortopts (fill_tables alloc_ok p_list t) i
  = match last_with_flag i (processed p_list) with
    | Some d => Some d
    | None => pp_shortopts t i
    end.
Proof.
  intros Halloc. unfold fill_tables, processed. revert t.
  induction p_list as [|m l IH]; intros t; [reflexivity|].
  cbn [fold_left flat_map]. rewrite IH, last_with_flag_app.
  destruct (last_with_flag i (flat_map _ l)); [reflexivity|].
  unfold add_module. destruct (i_config_items m =? 0)%nat; [reflexivity|].
  now apply add_items_pp.
Qed.

(** X1. When the name allocations succeed, the short table resolves each
    flag to the last descriptor, in the order of the registry, that carries
    it among the descriptors the loop goes through; a flag no descriptor
    carries resolves to nothing. An earlier descriptor with the same flag is
    overwritten without notice. *)
Theorem short_table_last_writer (alloc_ok : nat -> bool)
    (p_list : list module_t) (n : nat) (i : Z) :
  (forall k, alloc_ok k = true) ->
  pp_shortopts (build_tables alloc_ok p_list n) i
  = last_with_flag i (processed p_list).
Proof.
  intros Halloc. unfold build_tables, close_tables, push_long; simpl.
  rewrite (fill_tables_pp alloc_ok p_list _ i Halloc).
  destruct (last_with_flag i (processed p_list)); reflexivity.
Qed.

Lemma short_table_last_writer_witness :
  pp_shortopts (build_tables (fun _ => true) Sample.registry 2) (code "w")
  = Some (Sample.item "old-width" "w" CONFIG_ITEM_INTEGER (Some "width") false).
Proof.
  rewrite (short_table_last_writer (fun _ => true) Sample.registry 2 (code "w"))
    by reflexivity.
  reflexivity.
Defined.

(* ================================================================== *)
(** ** The tables and the room allocated for them                     *)
(* ================================================================== *)

Lemma add_item_long_le (alloc_ok : nat -> bool) (d : module_config_t) (t : tables) :
  (List.length (p_longopts (add_item alloc_ok d t))
   <= List.length (p_longopts t) + long_slots d)%nat.
Proof.
  unfold add_item, long_slots, non_hint.
  destruct (is_hint (i_type d)); simpl; [lia|].
  destruct (alloc_ok (n_alloc t)); simpl; [|destruct (is_bool (i_type d)); lia].
  destruct (is_bool (i_type d)).
  - destruct (alloc_ok _); simpl; [|rewrite length_app; simpl; lia].
    destruct (alloc_ok _); simpl; [|rewrite !length_app; simpl; lia].
    rewrite add_short_long. simpl. rewrite !length_app. simpl. lia.
  - rewrite add_short_long. simpl. rewrite length_app. simpl. lia.
Qed.

Lemma string_length_app (a b : string) :
  String.length (a ++ b)%string = (String.length a + String.length b)%nat.
Proof. induction a as [|x a IH]; simpl; [reflexivity | now rewrite IH]. Qed.

Lemma add_short_chars (d : module_config_t) (t : tables) :
  (String.length (psz_shortopts (add_short d t))
   <= String.length (psz_shortopts t)
      + (if is_bool (i_type d) then 1
         else if Ascii.eqb (i_short d) "v" then 3 else 2))%nat.
Proof.
  destruct (Z.eq_dec (code (i_short d)) 0) as [Hz|Hz].
  - unfold add_short. rewrite Hz. simpl. lia.
  - rewrite (add_short_spec d t Hz), string_length_app. unfold short_spec.
    destruct (is_bool (i_type d)); [simpl; lia|].
    destruct (Ascii.eqb (i_short d) "v"); simpl; lia.
Qed.

Lemma add_item_short_le (alloc_ok : nat -> bool) (d : module_config_t) (t : tables) :
  (String.length (psz_shortopts (add_item alloc_ok d t))
   <= String.length (psz_shortopts t) + short_chars d)%nat.
Proof.
  unfold add_item, short_chars, non_hint.
  destruct (is_hint (i_type d)); simpl; [lia|].
  destruct (alloc_ok (n_alloc t)); simpl; [|lia].
  destruct (is_bool (i_type d)) eqn:Hb.
  - destruct (alloc_ok _); simpl; [|lia].
    destruct (alloc_ok _); simpl; [|lia].
    etransitivity; [apply add_short_chars|]. rewrite Hb. simpl. lia.
  - etransitivity; [apply add_short_chars|]. rewrite Hb. simpl. lia.
Qed.

Lemma add_items_le (alloc_ok : nat -> bool) (l : list module_config_t) (t : tables) :
  (List.length (p_longopts (fold_left (fun acc p_item => add_item alloc_ok p_item acc) l t))
   <= List.length (p_longopts t) + list_sum (map long_slots l))%nat /\
  (String.length (psz_shortopts (fold_left (fun acc p_item => add_item alloc_ok p_item acc) l t))
   <= String.length (psz_shortopts t) + list_sum (map short_chars l))%nat.
Proof.
  revert t. induction l as [|d l IH]; intros t; simpl; [lia|].
  destruct (IH (add_item alloc_ok d t)) as [H1 H2].
  pose proof (add_item_long_le alloc_ok d t).
  pose proof (add_item_short_le alloc_ok d t). lia.
Qed.

Lemma long_slots_sum (l : list module_config_t) :
  list_sum (map long_slots l)
  = (List.length (filter non_hint l)
     + 2 * List.length (filter (fun d => is_bool (i_type d)) l))%nat.
Proof.
  induction l as [|d l IH]; [reflexivity|].
  change (list_sum (map long_slots (d :: l)))
    with (long_slots d + list_sum (map long_slots l))%nat.
  cbn [filter]. rewrite IH. unfold long_slots, non_hint.
  destruct (i_type d); simpl; lia.
Qed.

Lemma short_chars_sum (l : list module_config_t) :
  (list_sum (map short_chars l)
   + 5 * List.length (filter (fun d => is_bool (i_type d)) l)
   <= 2 * list_sum (map long_slots l)
      + List.length (filter (fun d => non_hint d && negb (is_bool (i_type d))
                                      && Ascii.eqb (i_short d) "v") l))%nat.
Proof.
  induction l as [|d l IH]; [simpl; lia|].
  change (list_sum (map long_slots (d :: l)))
    with (long_slots d + list_sum (map long_slots l))%nat.
  change (list_sum (map short_chars (d :: l)))
    with (short_chars d + list_sum (map short_chars l))%nat.
  cbn [filter]. unfold short_chars at 1, long_slots at 1. unfold non_hint in *.
  destruct (i_type d); cbn [is_hint is_bool negb andb];
    destruct (Ascii.eqb (i_short d) "v"); cbn [List.length]; lia.
Qed.

Lemma fill_tables_le (alloc_ok : nat -> bool) (p_list : list module_t) (t : tables) :
  Forall module_wf p_list ->
  (List.length (p_longopts (fill_tables alloc_ok p_list t))
   <= List.length (p_longopts t) + i_opts p_list)%nat /\
  (String.length (psz_shortopts (fill_tables alloc_ok p_list t))
   + 5 * countBool p_list
   <= String.length (psz_shortopts t) + 2 * i_opts p_list + countV p_list)%nat.
Proof.
  unfold fill_tables, countBool, countV, descriptors. intros Hwf. revert t.
  induction Hwf as [|m l Hm Hl IH]; intros t; [simpl; lia|].
  cbn [fold_left flat_map].
  destruct (IH (add_module alloc_ok m t)) as [H1 H2]. clear IH.
  unfold i_opts in *. cbn [fold_left]. rewrite i_opts_acc. unfold i_opts.
  rewrite !filter_app, !length_app.
  assert (Hmod :
    (List.length (p_longopts (add_module alloc_ok m t))
     <= List.length (p_longopts t) + list_sum (map long_slots (p_config m)))%nat /\
    (String.length (psz_shortopts (add_module alloc_ok m t))
     <= String.length (psz_shortopts t) + list_sum (map short_chars (p_config m)))%nat).
  { unfold add_module. destruct (i_config_items m =? 0)%nat; [lia|].
    apply add_items_le. }
  destruct Hm as [Hc Hb]. fold non_hint in Hc.
  pose proof (long_slots_sum (p_config m)) as Hs.
  pose proof (short_chars_sum (p_config m)) as Hs'.
  rewrite <- Hc, <- Hb in Hs. simpl in *. lia.
Qed.

(** X2. Whichever name allocations fail, the loop never fills more slots
    of the long table than the i_opts it was sized for, so the table with
    its closing entry fits the i_opts + 1 slots allocated (module counters
    agreeing with the descriptors). *)
Theorem long_table_fits (alloc_ok : nat -> bool) (p_list : list module_t) (n : nat) :
  Forall module_wf p_list ->
  (List.length (p_longopts (build_tables alloc_ok p_list n)) <= i_opts p_list + 1)%nat.
Proof.
  intros Hwf. unfold build_tables, close_tables, push_long. simpl.
  rewrite length_app. simpl.
  pose proof (proj1 (fill_tables_le alloc_ok p_list (empty_tables n) Hwf)) as H.
  simpl in H. lia.
Qed.

Lemma long_table_fits_witness :
  (List.length (p_longopts (build_tables (fun k => Nat.even k) Sample.registry 2))
   <= i_opts Sample.registry + 1)%nat.
Proof.
  apply (long_table_fits (fun k => Nat.even k) Sample.registry 2).
  constructor; [split; reflexivity | constructor].
Defined.

(** X3. Whichever name allocations fail, the packed short-option string is
    at most 2 * i_opts - 5 * countBool characters long, plus one for each
    descriptor that receives the doubled colon (module counters agreeing
    with the descriptors). It therefore fits the 2 * i_opts + 1 bytes
    allocated for it, closing NUL included, as soon as the descriptors with
    the doubled colon are at most five times the boolean ones. The
    condition is needed: for a registry whose only descriptor is an Integer
    with the flag [v], the string with its NUL takes 4 bytes and 3 are
    allocated. *)
Theorem short_string_bound (alloc_ok : nat -> bool) (p_list : list module_t)
    (n : nat) :
  Forall module_wf p_list ->
  (String.length (psz_shortopts (build_tables alloc_ok p_list n))
   + 5 * countBool p_list
   <= 2 * i_opts p_list + countV p_list)%nat /\
  ((countV p_list <= 5 * countBool p_list)%nat ->
   (String.length (psz_shortopts (build_tables alloc_ok p_list n)) + 1
    <= 2 * i_opts p_list + 1)%nat) /\
  (exists only_v,
      Forall module_wf only_v /\
      (2 * i_opts only_v + 1
       < String.length (psz_shortopts (build_tables (fun _ => true) only_v n)) + 1)%nat).
Proof.
  intros Hwf.
  pose proof (proj2 (fill_tables_le alloc_ok p_list (empty_tables n) Hwf)) as H.
  unfold build_tables, close_tables, push_long. simpl in *.
  split; [lia|]. split; [lia|].
  exists [{| i_config_items := 1; i_bool_items := 0;
             p_config := [{| psz_name := "verbose"; i_short := "v";
                             i_type := CONFIG_ITEM_INTEGER;
                             psz_current := None; b_strict := false |}] |}].
  split; [constructor; [split; reflexivity | constructor]|].
  simpl. lia.
Qed.

Lemma short_string_bound_witness :
  (String.length (psz_shortopts (build_tables (fun _ => true) Sample.registry 2)) + 1
   <= 2 * i_opts Sample.registry + 1)%nat.
Proof.
  assert (Hwf : Forall module_wf Sample.registry)
    by (constructor; [split; reflexivity | constructor]).
  apply (proj1 (proj2 (short_string_bound (fun _ => true) Sample.registry 2 Hwf))).
  vm_compute. lia.
Defined.

Lemma add_item_prefix (alloc_ok : nat -> bool) (d : module_config_t) (t : tables) :
  incl (p_longopts t) (p_longopts (add_item alloc_ok d t)).
Proof.
  unfold add_item.
  destruct (is_hint (i_type d)); [apply incl_refl|].
  destruct (alloc_ok (n_alloc t)); simpl; [|apply incl_refl].
  destruct (is_bool (i_type d)).
  - destruct (alloc_ok _); simpl; [|apply incl_appl, incl_refl].
    destruct (alloc_ok _); simpl; [|apply incl_appl, incl_appl, incl_refl].
    rewrite add_short_long. simpl.
    apply incl_appl, incl_appl, incl_appl, incl_refl.
  - rewrite add_short_long. simpl. apply incl_appl, incl_refl.
Qed.

Lemma claims_flag_true (i : Z) (d : module_config_t) :
  claims_flag i d = true -> i = code (i_short d) /\ i <> 0.
Proof.
  unfold claims_flag. intros H. apply andb_prop in H as [H1 H2].
  apply Z.eqb_eq in H2. apply negb_true_iff, Z.eqb_neq in H1. lia.
Qed.

Lemma add_short_inv (d : module_config_t) (t : tables)
    (seen : list module_config_t) :
  short_table_inv t seen ->
  incl (entries_of d) (p_longopts t) ->
  short_table_inv (add_short d t) (seen ++ [d]).
Proof.
  intros Hinv Hd i x. rewrite add_short_pp, add_short_long.
  destruct (claims_flag i d) eqn:Hc.
  - intros H; injection H as <-.
    destruct (claims_flag_true i d Hc) as [-> Hnz].
    repeat split; auto. apply in_or_app. right. now left.
  - intros H. destruct (Hinv i x H) as (? & ? & ? & ?).
    repeat split; auto. apply in_or_app. now left.
Qed.

Lemma short_table_inv_grow (t t' : tables) (seen : list module_config_t)
    (d : module_config_t) :
  short_table_inv t seen ->
  pp_shortopts t' = pp_shortopts t ->
  incl (p_longopts t) (p_longopts t') ->
  short_table_inv t' (seen ++ [d]).
Proof.
  intros Hinv Hpp Hincl i x. rewrite Hpp. intros H.
  destruct (Hinv i x H) as (? & ? & ? & He).
  repeat split; auto.
  - apply in_or_app. now left.
  - intros e Hin. apply Hincl, He, Hin.
Qed.

Lemma add_item_inv (alloc_ok : nat -> bool) (d : module_config_t) (t : tables)
    (seen : list module_config_t) :
  short_table_inv t seen ->
  non_hint d = true ->
  short_table_inv (add_item alloc_ok d t) (seen ++ [d]).
Proof.
  intros Hinv Hnh. unfold add_item. unfold non_hint in Hnh.
  apply negb_true_iff in Hnh. rewrite Hnh.
  destruct (alloc_ok (n_alloc t)); simpl.
  2:{ eapply short_table_inv_grow; eauto. apply incl_refl. }
  destruct (is_bool (i_type d)) eqn:Hb.
  - destruct (alloc_ok _); simpl.
    2:{ eapply short_table_inv_grow; eauto. apply incl_appl, incl_refl. }
    destruct (alloc_ok _); simpl.
    2:{ eapply short_table_inv_grow; eauto. simpl.
        apply incl_appl, incl_appl, incl_refl. }
    apply add_short_inv.
    + intros i x H. simpl in H. destruct (Hinv i x H) as (? & ? & ? & He).
      repeat split; auto. intros e Hin. simpl.
      apply in_or_app; left. apply in_or_app; left. apply in_or_app; left.
      now apply He.
    + unfold entries_of, primary_entry, no_entry, no_dash_entry. rewrite Hb.
      simpl. intros e [<-|[<-|[<-|[]]]].
      * apply in_or_app; left. apply in_or_app; left. apply in_or_app; right.
        now left.
      * apply in_or_app; left. apply in_or_app; right. now left.
      * apply in_or_app; right. now left.
  - apply add_short_inv.
    + intros i x H. simpl in H. destruct (Hinv i x H) as (? & ? & ? & He).
      repeat split; auto. intros e Hin. simpl.
      apply in_or_app; left. now apply He.
    + unfold entries_of, primary_entry. rewrite Hb. simpl.
      intros e [<-|[]]. apply in_or_app; right. now left.
Qed.

Lemma add_items_inv (alloc_ok : nat -> bool) (l : list module_config_t)
    (t : tables) (seen : list module_config_t) :
  short_table_inv t seen ->
  short_table_inv (fold_left (fun acc p_item => add_item alloc_ok p_item acc) l t)
                  (seen ++ filter non_hint l).
Proof.
  revert t seen. induction l as [|d l IH]; intros t seen Hinv.
  - simpl. now rewrite app_nil_r.
  - cbn [fold_left filter]. destruct (non_hint d) eqn:Hnh.
    + change (d :: filter non_hint l) with ([d] ++ filter non_hint l).
      rewrite app_assoc. apply IH. now apply add_item_inv.
    + apply IH. unfold add_item. unfold non_hint in Hnh.
      apply negb_false_iff in Hnh. now rewrite Hnh.
Qed.

Lemma fill_tables_inv (alloc_ok : nat -> bool) (p_list : list module_t)
    (t : tables) (seen : list module_config_t) :
  short_table_inv t seen ->
  short_table_inv (fill_tables alloc_ok p_list t) (seen ++ processed p_list).
Proof.
  unfold fill_tables, processed. revert t seen.
  induction p_list as [|m l IH]; intros t seen Hinv.
  - simpl. now rewrite app_nil_r.
  - cbn [fold_left flat_map]. rewrite app_assoc. apply IH.
    unfold add_module. destruct (i_config_items m =? 0)%nat.
    + now rewrite app_nil_r.
    + now apply add_items_inv.
Qed.

Lemma processed_in_registry (p_list : list module_t) (d : module_config_t) :
  In d (processed p_list) -> In d (descriptors p_list) /\ non_hint d = true.
Proof.
  unfold processed, descriptors. rewrite !in_flat_map.
  intros (m & Hm & Hd). destruct (i_config_items m =? 0)%nat; [contradiction|].
  apply filter_In in Hd as [Hd Hnh]. split; [exists m; auto | exact Hnh].
Qed.

(** X4. Whichever name allocations fail, a descriptor found in the short
    table sits under the code of its own flag, which is not NUL, is a
    descriptor of the registry that is not a hint, and has all its long
    entries in the long table: its own name and, for a boolean, both
    negation forms. A descriptor one of whose names could not be allocated
    never gets its short flag. *)
Theorem short_flag_complete (alloc_ok : nat -> bool) (p_list : list module_t)
    (n : nat) (i : Z) (d : module_config_t) :
  pp_shortopts (build_tables alloc_ok p_list n) i = Some d ->
  i = code (i_short d) /\ i <> 0 /\
  In d (descriptors p_list) /\ non_hint d = true /\
  In (primary_entry d) (p_longopts (build_tables alloc_ok p_list n)) /\
  (i_type d = CONFIG_ITEM_BOOL ->
   In (no_entry d) (p_longopts (build_tables alloc_ok p_list n)) /\
   In (no_dash_entry d) (p_longopts (build_tables alloc_ok p_list n))).
Proof.
  intros H.
  assert (Hinv : short_table_inv (fill_tables alloc_ok p_list (empty_tables n))
                                 ([] ++ processed p_list)).
  { apply fill_tables_inv. intros j x Hx. discriminate Hx. }
  unfold build_tables, close_tables, push_long in *. simpl in *.
  destruct (Hinv i d H) as (Hi & Hnz & Hin & He).
  destruct (processed_in_registry p_list d Hin) as [Hreg Hnh].
  repeat split; auto.
  - apply in_or_app. left. apply He. unfold entries_of. now left.
  - apply in_or_app. left. apply He. unfold entries_of.
    rewrite H0. simpl. auto.
  - apply in_or_app. left. apply He. unfold entries_of.
    rewrite H0. simpl. auto.
Qed.

Lemma short_flag_complete_witness :
  In (no_dash_entry (Sample.item "fullscreen" "f" CONFIG_ITEM_BOOL None false))
     (p_longopts (build_tables (fun k => Nat.leb k 20) Sample.registry 2)).
Proof.
  apply (short_flag_complete (fun k => Nat.leb k 20) Sample.registry 2 (code "f")
           (Sample.item "fullscreen" "f" CONFIG_ITEM_BOOL None false));
    reflexivity.
Defined.

(* ================================================================== *)
(** ** What the loop does to the store and to the log                 *)
(* ================================================================== *)

Lemma long_switch_effect (host : host_t) (p : module_config_t) (name : string)
    (arg : option string) (fl : Z) (st : parse_state) :
  log (state_of (long_switch host p name arg fl st)) = log st /\
  (puts (state_of (long_switch host p name arg fl st)) = puts st \/
   exists q, puts (state_of (long_switch host p name arg fl st)) = puts st ++ [q] /\
             put_name q = name).
Proof.
  unfold long_switch.
  destruct (i_type p); try destruct arg; simpl; split; auto;
    right; eexists; split; reflexivity.
Qed.

Lemma short_switch_effect (p : module_config_t) (cmd : Z) (arg : option string)
    (st : parse_state) :
  log (state_of (short_switch p cmd arg st)) = log st /\
  (puts (state_of (short_switch p cmd arg st)) = puts st \/
   exists q, puts (state_of (short_switch p cmd arg st)) = puts st ++ [q] /\
             put_name q = psz_name p).
Proof.
  unfold short_switch.
  destruct (i_type p); try destruct (cmd =? code "v"); try destruct arg;
    simpl; split; auto; right; eexists; split; reflexivity.
Qed.

(** One iteration puts at most one value, under a name the registry knows
    when the short table holds descriptors of the registry; what was put
    and printed before stays. *)
Lemma loop_body_effect (host : host_t) (p_list : list module_t) (t : tables)
    (b : bool) (ev : getopt_call) (st : parse_state) :
  (exists printed,
      log (state_of (loop_body host p_list t b ev st)) = log st ++ printed) /\
  (puts (state_of (loop_body host p_list t b ev st)) = puts st \/
   exists q,
     puts (state_of (loop_body host p_list t b ev st)) = puts st ++ [q] /\
     ((forall i d, pp_shortopts t i = Some d ->
                   In d (descriptors p_list) /\ non_hint d = true) ->
      registered p_list (put_name q))).
Proof.
  unfold loop_body.
  assert (Hshort :
    (exists printed,
        log (state_of
               match pp_shortopts t (i_cmd ev) with
               | Some p_short => short_switch p_short (i_cmd ev) (optarg ev) st
               | None => if negb b
                         then Return (-1) (print (unknown_option host ev) st)
                         else Continue st
               end) = log st ++ printed) /\
    (puts (state_of
             match pp_shortopts t (i_cmd ev) with
             | Some p_short => short_switch p_short (i_cmd ev) (optarg ev) st
             | None => if negb b
                       then Return (-1) (print (unknown_option host ev) st)
                       else Continue st
             end) = puts st \/
     exists q,
       puts (state_of
               match pp_shortopts t (i_cmd ev) with
               | Some p_short => short_switch p_short (i_cmd ev) (optarg ev) st
               | None => if negb b
                         then Return (-1) (print (unknown_option host ev) st)
                         else Continue st
               end) = puts st ++ [q] /\
       ((forall i d, pp_shortopts t i = Some d ->
                     In d (descriptors p_list) /\ non_hint d = true) ->
        registered p_list (put_name q)))).
  { destruct (pp_shortopts t (i_cmd ev)) as [p|] eqn:Hp.
    - destruct (short_switch_effect p (i_cmd ev) (optarg ev) st) as [Hl Hq].
      split; [exists []; now rewrite app_nil_r|].
      destruct Hq as [Hq|(q & Hq & Hn)]; [now left|right].
      exists q. split; [exact Hq|]. intros Ht.
      destruct (Ht _ _ Hp) as [Hin Hnh].
      exists p. rewrite Hn. auto.
    - destruct b; simpl.
      + split; [exists []; now rewrite app_nil_r | now left].
      + split; [eexists; reflexivity | now left]. }
  destruct (i_cmd ev =? 0); [|exact Hshort].
  unfold long_branch.
  destruct (nth_error (p_longopts t) (i_index ev)) as [[[entry|] ha v]|];
    try (split; [exists []; now rewrite app_nil_r | now left]).
  destruct (config_FindConfig p_list (strip_no entry (flag ev))) as [p_conf|] eqn:Hf;
    [|exact Hshort].
  apply find_item_some in Hf as (Hin & Hnh & Hname).
  destruct (psz_current p_conf) as [current|] eqn:Hcur.
  - destruct (b_strict p_conf); [split; [eexists; reflexivity | now left]|].
    destruct b; simpl; [|split; [eexists; reflexivity | now left]].
    destruct (config_FindConfig p_list current) as [p_new|];
      [|split; [eexists; reflexivity | now left]].
    destruct (long_switch_effect host p_new current (optarg ev) (flag ev)
                (print (warn_deprecated true p_conf current) st)) as [Hl Hq].
    split; [rewrite Hl; eexists; reflexivity|].
    destruct Hq as [Hq|(q & Hq & Hn)]; [now left|right].
    exists q. split; [exact Hq|]. intros _.
    exists p_conf. rewrite Hn. auto.
  - destruct (long_switch_effect host p_conf (strip_no entry (flag ev))
                (optarg ev) (flag ev) st) as [Hl Hq].
    split; [rewrite Hl; exists []; now rewrite app_nil_r|].
    destruct Hq as [Hq|(q & Hq & Hn)]; [now left|right].
    exists q. split; [exact Hq|]. intros _.
    exists p_conf. rewrite Hn. auto.
Qed.

Lemma parse_calls_effect (host : host_t) (p_list : list module_t) (t : tables)
    (b : bool) (ref : argv_ref) (evs : list getopt_call) (st : parse_state) :
  exists added printed,
    puts (state_of (parse_calls host p_list t b ref evs st)) = puts st ++ added /\
    log (state_of (parse_calls host p_list t b ref evs st)) = log st ++ printed /\
    (List.length added <= List.length evs)%nat /\
    ((forall i d, pp_shortopts t i = Some d ->
                  In d (descriptors p_list) /\ non_hint d = true) ->
     Forall (fun q => registered p_list (put_name q)) added).
Proof.
  revert st. induction evs as [|ev r IH]; intros st.
  - exists [], []. simpl. rewrite !app_nil_r. repeat split; auto.
  - cbn [parse_calls].
    set (st1 := set_mem (store_argv ref (scanned ev) (mem st)) st).
    destruct (loop_body_effect host p_list t b ev st1) as [[pr Hl] Hq].
    assert (Hone : exists a,
               puts (state_of (loop_body host p_list t b ev st1)) = puts st ++ a /\
               (List.length a <= 1)%nat /\
               ((forall i d, pp_shortopts t i = Some d ->
                             In d (descriptors p_list) /\ non_hint d = true) ->
                Forall (fun q => registered p_list (put_name q)) a)).
    { destruct Hq as [Hq|(q & Hq & Hr)].
      - exists []. rewrite app_nil_r. repeat split; auto.
      - exists [q]. repeat split; auto. }
    destruct Hone as (a & Ha & Hlen & Hreg).
    destruct (loop_body host p_list t b ev st1) as [st2| |] eqn:Hb;
      simpl in Ha, Hl.
    + destruct (IH st2) as (added & printed & Hp & Hlg & Hn & Hr).
      exists (a ++ added), (pr ++ printed).
      rewrite Hp, Hlg, Ha, Hl, <- !app_assoc. repeat split; auto.
      * rewrite length_app. simpl. lia.
      * intros Ht. apply Forall_app. auto.
    + exists a, pr. simpl. repeat split; auto. simpl. lia.
    + exists a, pr. simpl. repeat split; auto. simpl. lia.
Qed.

Lemma build_tables_registered (alloc_ok : nat -> bool) (p_list : list module_t)
    (n : nat) (i : Z) (d : module_config_t) :
  pp_shortopts (build_tables alloc_ok p_list n) i = Some d ->
  In d (descriptors p_list) /\ non_hint d = true.
Proof.
  intros H.
  assert (Hinv : short_table_inv (fill_tables alloc_ok p_list (empty_tables n))
                                 ([] ++ processed p_list)).
  { apply fill_tables_inv. intros j x Hx. discriminate Hx. }
  destruct (Hinv i d H) as (_ & _ & Hin & _).
  now apply processed_in_registry.
Qed.

(** X5. Whatever the registry, argv, the mode and the fate of the
    allocations, every value the call puts in the store is put under a name
    the registry knows: the name of a descriptor that is not a hint, or the
    replacement name such a descriptor points to. With no descriptor in the
    registry nothing is ever put. *)
Theorem puts_only_registered (host : host_t) (p_list : list module_t)
    (argv : list string) (b : bool) :
  Forall (fun q => registered p_list (put_name q))
         (puts (state_of (config_LoadCmdLine host p_list argv b))) /\
  (descriptors p_list = [] ->
   puts (state_of (config_LoadCmdLine host p_list argv b)) = []).
Proof.
  assert (Hall : Forall (fun q => registered p_list (put_name q))
                   (puts (state_of (config_LoadCmdLine host p_list argv b)))).
  { unfold config_LoadCmdLine.
    destruct (malloc_ok host 0); simpl; [|constructor].
    destruct (malloc_ok host 1); simpl; [|constructor].
    destruct (b && negb (malloc_ok host 2)); [constructor|].
    destruct (getopt_long _ _ _ _) as [evs final].
    unfold parse_loop.
    match goal with
    | |- context [parse_calls ?h ?pl ?t ?bb ?rf evs ?s] =>
        destruct (parse_calls_effect h pl t bb rf evs s)
          as (added & printed & Hp & _ & _ & Hr);
        destruct (parse_calls h pl t bb rf evs s) eqn:Hc
    end; simpl in Hp;
      specialize (Hr (build_tables_registered _ _ _));
      try (destruct b); simpl; rewrite Hp; exact Hr. }
  split; [exact Hall|].
  intros Hnone.
  destruct (puts (state_of (config_LoadCmdLine host p_list argv b))) as [|q l];
    [reflexivity|].
  inversion Hall as [|? ? (d & Hin & _) _]. rewrite Hnone in Hin. contradiction.
Qed.

Lemma puts_only_registered_witness :
  puts (state_of (config_LoadCmdLine Sample.host [] ["vlc"; "-v"; "--width=3"] true))
  = [].
Proof.
  exact (proj2 (puts_only_registered Sample.host [] ["vlc"; "-v"; "--width=3"] true)
           eq_refl).
Defined.

(** X6. The store is only ever appended to and the log likewise: the loop
    keeps what was put and printed before it, whether it runs to its end,
    returns early or faults, and it puts at most one value for each result
    of the scanner — a call that fails leaves the puts of the earlier
    options in place. *)
Theorem store_is_append_only (host : host_t) (p_list : list module_t)
    (t : tables) (b : bool) (ref : argv_ref) (evs : list getopt_call)
    (final : list string) (st : parse_state) :
  exists added printed,
    puts (state_of (parse_loop host p_list t b ref evs final st))
    = puts st ++ added /\
    log (state_of (parse_loop host p_list t b ref evs final st))
    = log st ++ printed /\
    (List.length added <= List.length evs)%nat.
Proof.
  destruct (parse_calls_effect host p_list t b ref evs st)
    as (added & printed & Hp & Hl & Hn & _).
  exists added, printed. unfold parse_loop.
  destruct (parse_calls host p_list t b ref evs st); simpl in *; auto.
Qed.

(* ================================================================== *)
(** ** Exit status and diagnostics                                    *)
(* ================================================================== *)

(** What one iteration prints: nothing, the warning for a removed option,
    the message for a deprecated one, or, in strict mode only, the
    diagnostic for an unknown option. *)
Lemma loop_body_printed (host : host_t) (p_list : list module_t) (t : tables)
    (b : bool) (ev : getopt_call) (st : parse_state) :
  exists printed,
    log (state_of (loop_body host p_list t b ev st)) = log st ++ printed /\
    (printed = [] \/ (exists p, printed = warn_removed p) \/
     (exists p cur, printed = warn_deprecated b p cur) \/
     (b = false /\ printed = unknown_option host ev)) /\
    (forall z, status_of (loop_body host p_list t b ev st) = Some z ->
               z = -1 /\ b = false /\ printed <> []).
Proof.
  unfold loop_body.
  assert (Hshort :
    exists printed,
      log (state_of
             match pp_shortopts t (i_cmd ev) with
             | Some p_short => short_switch p_short (i_cmd ev) (optarg ev) st
             | None => if negb b
                       then Return (-1) (print (unknown_option host ev) st)
                       else Continue st
             end) = log st ++ printed /\
      (printed = [] \/ (exists p, printed = warn_removed p) \/
       (exists p cur, printed = warn_deprecated b p cur) \/
       (b = false /\ printed = unknown_option host ev)) /\
      (forall z,
          status_of
            match pp_shortopts t (i_cmd ev) with
            | Some p_short => short_switch p_short (i_cmd ev) (optarg ev) st
            | None => if negb b
                      then Return (-1) (print (unknown_option host ev) st)
                      else Continue st
            end = Some z -> z = -1 /\ b = false /\ printed <> [])).
  { destruct (pp_shortopts t (i_cmd ev)) as [p|].
    - exists []. rewrite app_nil_r.
      rewrite (proj1 (short_switch_effect p (i_cmd ev) (optarg ev) st)).
      rewrite short_switch_no_return. repeat split; auto; discriminate.
    - destruct b; simpl.
      + exists []. rewrite app_nil_r. repeat split; auto; discriminate.
      + exists (unknown_option host ev). repeat split; auto.
        * injection H as <-. reflexivity.
        * discriminate. }
  destruct (i_cmd ev =? 0); [|exact Hshort].
  unfold long_branch.
  destruct (nth_error (p_longopts t) (i_index ev)) as [[[entry|] ha v]|];
    try (exists []; rewrite app_nil_r; repeat split; auto; discriminate).
  destruct (config_FindConfig p_list (strip_no entry (flag ev))) as [p_conf|];
    [|exact Hshort].
  destruct (psz_current p_conf) as [current|].
  - destruct (b_strict p_conf).
    + exists (warn_removed p_conf). repeat split; eauto; discriminate.
    + destruct b; simpl.
      * exists (warn_deprecated true p_conf current).
        destruct (config_FindConfig p_list current) as [p_new|].
        -- rewrite (proj1 (long_switch_effect host p_new current _ _ _)).
           rewrite long_switch_no_return.
           repeat split; eauto 6; discriminate.
        -- repeat split; eauto 6; discriminate.
      * exists (warn_deprecated false p_conf current).
        repeat split; eauto 6; try discriminate.
        injection H as <-. reflexivity.
  - exists []. rewrite app_nil_r.
    rewrite (proj1 (long_switch_effect host p_conf _ _ _ _)).
    rewrite long_switch_no_return. repeat split; auto; discriminate.
Qed.

Lemma parse_calls_printed (host : host_t) (p_list : list module_t) (t : tables)
    (b : bool) (ref : argv_ref) (evs : list getopt_call) (st : parse_state) :
  exists printed,
    log (state_of (parse_calls host p_list t b ref evs st)) = log st ++ printed /\
    Forall (fun o => (exists p, In o (warn_removed p)) \/
                     (exists p cur, In o (warn_deprecated b p cur)) \/
                     (b = false /\ exists ev, In o (unknown_option host ev)))
           printed /\
    (forall z, status_of (parse_calls host p_list t b ref evs st) = Some z ->
               z = -1 /\ b = false /\ printed <> []).
Proof.
  revert st. induction evs as [|ev r IH]; intros st.
  - exists []. simpl. rewrite app_nil_r. repeat split; auto; discriminate.
  - cbn [parse_calls].
    set (st1 := set_mem (store_argv ref (scanned ev) (mem st)) st).
    destruct (loop_body_printed host p_list t b ev st1) as (pr & Hl & Hk & Hs).
    assert (Hpr : Forall (fun o => (exists p, In o (warn_removed p)) \/
                     (exists p cur, In o (warn_deprecated b p cur)) \/
                     (b = false /\ exists ev, In o (unknown_option host ev))) pr).
    { apply Forall_forall. intros o Ho.
      destruct Hk as [->|[(p & ->)|[(p & cur & ->)|(Hb & ->)]]];
        [contradiction | eauto | eauto 6 | eauto 6]. }
    destruct (loop_body host p_list t b ev st1) as [st2| |] eqn:Hb;
      simpl in Hl, Hs.
    + destruct (IH st2) as (printed & Hlg & Hp & Hz).
      exists (pr ++ printed). rewrite Hlg, Hl, <- app_assoc.
      repeat split; try (apply Forall_app; auto); try apply (Hz z H).
      destruct (Hz z H) as (_ & _ & Hne). intros E.
      apply app_eq_nil in E as [_ E]. contradiction.
    + exists pr. simpl. repeat split; auto; apply (Hs z H).
    + exists pr. simpl. repeat split; auto; discriminate.
Qed.

(** X7. The call returns 0 or -1 and nothing else; whenever it returns -1
    it has printed something; and in permissive mode it returns -1 only
    when one of its three arrays could not be allocated. *)
Theorem exit_status (host : host_t) (p_list : list module_t)
    (argv : list string) (b : bool) (z : Z) :
  status_of (config_LoadCmdLine host p_list argv b) = Some z ->
  z = 0 \/
  (z = -1 /\ log (state_of (config_LoadCmdLine host p_list argv b)) <> [] /\
   (b = true -> array_allocation_fails host b = true)).
Proof.
  unfold config_LoadCmdLine, array_allocation_fails.
  destruct (malloc_ok host 0); simpl;
    [|intros H; injection H as <-; right; repeat split; auto; discriminate].
  destruct (malloc_ok host 1); simpl;
    [|intros H; injection H as <-; right; repeat split; auto; discriminate].
  destruct (b && negb (malloc_ok host 2)) eqn:Hc;
    [intros H; injection H as <-; right; repeat split; auto; discriminate|].
  destruct (getopt_long _ _ _ _) as [evs final]. unfold parse_loop.
  match goal with
  | |- context [parse_calls ?h ?pl ?t ?bb ?rf evs ?s] =>
      destruct (parse_calls_printed h pl t bb rf evs s) as (pr & Hl & _ & Hz);
      destruct (parse_calls h pl t bb rf evs s) eqn:Hp
  end; simpl in *.
  - intros H; injection H as <-. now left.
  - intros H; injection H as <-.
    destruct (Hz status eq_refl) as (-> & -> & Hne).
    right. repeat split; try discriminate.
    rewrite Hl. simpl. exact Hne.
  - discriminate.
Qed.

Lemma exit_status_witness :
  -1 = 0 \/
  (-1 = -1 /\
   log (state_of (config_LoadCmdLine Sample.host Sample.registry
                    ["vlc"; "--old-width=3"] false)) <> [] /\
   (false = true -> array_allocation_fails Sample.host false = true)).
Proof.
  apply (exit_status Sample.host Sample.registry ["vlc"; "--old-width=3"] false).
  reflexivity.
Defined.

Lemma printed_is_stderr (host : host_t) (b : bool) (o : output) :
  (exists p, In o (warn_removed p)) \/
  (exists p cur, In o (warn_deprecated b p cur)) \/
  (b = false /\ exists ev, In o (unknown_option host ev)) ->
  is_stderr o.
Proof.
  intros [(p & H)|[(p & cur & H)|(_ & ev & H)]]; simpl in H.
  - destruct H as [<-|[]]. exact I.
  - destruct H as [<-|[]]. exact I.
  - destruct H as [<-|[H|[<-|[]]]]; try exact I.
    destruct (optopt ev =? 0); subst o; exact I.
Qed.

(** X8. The call reports "out of memory" exactly when one of its three
    arrays (the long table, the short string, the duplicate of argv in
    permissive mode) cannot be allocated; it then returns -1 before any
    table is built, with nothing put, nothing written to stderr, and the
    array of the caller as it was. *)
Theorem out_of_memory_exactly (host : host_t) (p_list : list module_t)
    (argv : list string) (b : bool) :
  (In (msg_Err "out of memory")
      (log (state_of (config_LoadCmdLine host p_list argv b)))
   <-> array_allocation_fails host b = true) /\
  (array_allocation_fails host b = true ->
   config_LoadCmdLine host p_list argv b
   = Return (-1)
       {| i_verbose := 0; puts := []; log := [msg_Err "out of memory"];
          mem := {| caller_array := argv; private_copy := None |} |}).
Proof.
  unfold config_LoadCmdLine, array_allocation_fails, out_of_memory.
  destruct (malloc_ok host 0); simpl; [|split; [split|]; auto].
  destruct (malloc_ok host 1); simpl; [|split; [split|]; auto].
  destruct (b && negb (malloc_ok host 2)) eqn:Hc; [split; [split|]; simpl; auto|].
  split; [|discriminate]. split; [|discriminate].
  destruct (getopt_long _ _ _ _) as [evs final]. unfold parse_loop.
  match goal with
  | |- context [parse_calls ?h ?pl ?t ?bb ?rf evs ?s] =>
      destruct (parse_calls_printed h pl t bb rf evs s) as (pr & Hl & Hk & _);
      destruct (parse_calls h pl t bb rf evs s) eqn:Hp
  end; simpl in Hl; intros Hin; exfalso;
    assert (Hpr : In (msg_Err "out of memory") pr)
      by (destruct b; simpl in Hin; rewrite Hl in Hin; exact Hin);
    rewrite Forall_forall in Hk;
    apply (printed_is_stderr host b _ (Hk _ Hpr)).
Qed.

Lemma out_of_memory_exactly_witness :
  config_LoadCmdLine
    {| malloc_ok := fun k => negb (Nat.eqb k 2);
       ConfigStringToKey := fun _ => 0; psz_object_name := "vlc" |}
    Sample.registry ["vlc"; "-v"] true
  = Return (-1)
      {| i_verbose := 0; puts := []; log := [msg_Err "out of memory"];
         mem := {| caller_array := ["vlc"; "-v"]; private_copy := None |} |}.
Proof.
  apply (proj2 (out_of_memory_exactly
                  {| malloc_ok := fun k => negb (Nat.eqb k 2);
                     ConfigStringToKey := fun _ => 0; psz_object_name := "vlc" |}
                  Sample.registry ["vlc"; "-v"] true)).
  reflexivity.
Defined.

(** X9. In permissive mode the only things the call ever prints are the
    "out of memory" report and the two warnings, for a removed and for a
    deprecated option; the diagnostic for an unknown option and the
    "Error:" form of the deprecation message are never printed. *)
Theorem permissive_prints_warnings (host : host_t) (p_list : list module_t)
    (argv : list string) :
  Forall (fun o => o = msg_Err "out of memory" \/
                   (exists p, In o (warn_removed p)) \/
                   (exists p cur, In o (warn_deprecated true p cur)))
         (log (state_of (config_LoadCmdLine host p_list argv true))).
Proof.
  unfold config_LoadCmdLine, out_of_memory.
  destruct (malloc_ok host 0); simpl; [|repeat constructor].
  destruct (malloc_ok host 1); simpl; [|repeat constructor].
  destruct (malloc_ok host 2); simpl; [|repeat constructor].
  destruct (getopt_long _ _ _ _) as [evs final]. unfold parse_loop.
  match goal with
  | |- context [parse_calls ?h ?pl ?t ?bb ?rf evs ?s] =>
      destruct (parse_calls_printed h pl t bb rf evs s) as (pr & Hl & Hk & _);
      destruct (parse_calls h pl t bb rf evs s) eqn:Hp
  end; simpl in Hl; simpl; rewrite Hl;
    (eapply Forall_impl; [|exact Hk]);
    intros o [H|[H|[H _]]]; auto; discriminate H.
Qed.

(* ================================================================== *)
(** ** The duplicate of argv                                          *)
(* ================================================================== *)

Lemma parse_calls_strict_private (host : host_t) (p_list : list module_t)
    (t : tables) (b : bool) (evs : list getopt_call) (st : parse_state) :
  private_copy (mem (state_of (parse_calls host p_list t b CallerArray evs st)))
  = private_copy (mem st).
Proof.
  revert st. induction evs as [|ev r IH]; intros st; simpl; [reflexivity|].
  pose proof (loop_body_mem host p_list t b ev
                (set_mem (store_argv CallerArray (scanned ev) (mem st)) st)) as H.
  destruct (loop_body host p_list t b ev _) as [st2| |]; simpl in H.
  - rewrite IH, H. reflexivity.
  - simpl. now rewrite H.
  - simpl. now rewrite H.
Qed.

(** X10. Whenever the call returns, with 0 or with -1, no duplicate of argv
    is left allocated: strict mode never makes one, and permissive mode
    frees it on the only path that returns after it was made. *)
Theorem duplicate_released (host : host_t) (p_list : list module_t)
    (argv : list string) (b : bool) (z : Z) :
  status_of (config_LoadCmdLine host p_list argv b) = Some z ->
  private_copy (mem (state_of (config_LoadCmdLine host p_list argv b))) = None.
Proof.
  unfold config_LoadCmdLine.
  destruct (malloc_ok host 0); simpl; [|reflexivity].
  destruct (malloc_ok host 1); simpl; [|reflexivity].
  destruct b; simpl.
  - destruct (malloc_ok host 2); simpl; [|reflexivity].
    destruct (getopt_long _ _ _ _) as [evs final]. unfold parse_loop.
    match goal with
    | |- context [parse_calls ?h ?pl ?t true ?rf evs ?s] =>
        pose proof (parse_calls_permissive h pl t rf evs s) as Hp;
        destruct (parse_calls h pl t true rf evs s)
    end; simpl in *; [reflexivity | discriminate | discriminate].
  - destruct (getopt_long _ _ _ _) as [evs final]. unfold parse_loop.
    match goal with
    | |- context [parse_calls ?h ?pl ?t false ?rf evs ?s] =>
        pose proof (parse_calls_strict_private h pl t false evs s) as Hp;
        destruct (parse_calls h pl t false rf evs s)
    end; simpl in *; intros _; exact Hp.
Qed.

Lemma duplicate_released_witness :
  private_copy
    (mem (state_of (config_LoadCmdLine Sample.host Sample.registry
                      ["vlc"; "clip.avi"; "--gone=x"; "-vv"] true))) = None.
Proof.
  apply (duplicate_released Sample.host Sample.registry
           ["vlc"; "clip.avi"; "--gone=x"; "-vv"] true 0).
  reflexivity.
Defined.

(* ================================================================== *)
(** ** Kinds the short branch does not store                          *)
(* ================================================================== *)

(** X11. The switch of the short branch has no case for the Float and Key
    kinds: an option of one of these kinds given by its short flag is
    consumed with its argument and nothing is put or printed, in both
    modes, whereas the same option given by its long name puts its value
    under that name. *)
Theorem short_flag_float_key_dropped (host : host_t) (p_list : list module_t)
    (t : tables) (b : bool) (ev : getopt_call) (st : parse_state)
    (p : module_config_t) :
  i_cmd ev <> 0 ->
  pp_shortopts t (i_cmd ev) = Some p ->
  i_type p = CONFIG_ITEM_FLOAT \/ i_type p = CONFIG_ITEM_KEY ->
  loop_body host p_list t b ev st = Continue st /\
  (forall name text fl,
      exists q, long_switch host p name (Some text) fl st = Continue (put q st) /\
                put_name q = name).
Proof.
  intros Hnz Hp Hk. split.
  - unfold loop_body. destruct (Z.eqb_spec (i_cmd ev) 0); [contradiction|].
    rewrite Hp. unfold short_switch. destruct Hk as [-> | ->]; reflexivity.
  - intros name text fl. unfold long_switch.
    destruct Hk as [-> | ->]; eexists; split; reflexivity.
Qed.

Lemma short_flag_float_key_dropped_witness :
  loop_body Sample.host Sample.registry
    {| p_longopts := []; psz_shortopts := "z:";
       pp_shortopts := fun i => if i =? code "z"
                                then Some (Sample.item "zoom" "z" CONFIG_ITEM_FLOAT
                                                       None false)
                                else None;
       n_alloc := 0 |}
    false
    {| i_cmd := code "z"; optarg := Some "1.5"; optind := 3; optopt := 63;
       i_index := 0; flag := 0; scanned := ["vlc"; "-z"; "1.5"] |}
    (initial_state {| caller_array := ["vlc"; "-z"; "1.5"]; private_copy := None |})
  = Continue
      (initial_state {| caller_array := ["vlc"; "-z"; "1.5"]; private_copy := None |}).
Proof.
  apply (short_flag_float_key_dropped Sample.host Sample.registry _ false _ _
           (Sample.item "zoom" "z" CONFIG_ITEM_FLOAT None false)).
  - vm_compute. discriminate.
  - reflexivity.
  - left. reflexivity.
Defined.

(* ================================================================== *)
(** ** Deprecated and removed options on the long path                *)
(* ================================================================== *)

(** X12. In strict mode, a long option whose descriptor is deprecated and
    not removed ends the call: it returns -1 after the "Error:" message,
    with the puts of the options in front of it and none for it or for what
    follows. *)
Theorem strict_deprecated_long_aborts (host : host_t) (p_list : list module_t)
    (argv : list string) (pre post : list getopt_call) (ev : getopt_call)
    (final : list string) (e : struct_option) (entry current : string)
    (p_conf : module_config_t) (st : parse_state) :
  malloc_ok host 0 = true ->
  malloc_ok host 1 = true ->
  getopt_long argv
    (psz_shortopts (build_tables (malloc_ok host) p_list 2))
    (p_longopts (build_tables (malloc_ok host) p_list 2))
    (List.length (p_longopts (build_tables (malloc_ok host) p_list 2)) - 1)
  = (pre ++ ev :: post, final) ->
  i_cmd ev = 0 ->
  nth_error (p_longopts (build_tables (malloc_ok host) p_list 2)) (i_index ev)
  = Some e ->
  o_name e = Some entry ->
  config_FindConfig p_list (strip_no entry (flag ev)) = Some p_conf ->
  psz_current p_conf = Some current ->
  b_strict p_conf = false ->
  parse_calls host p_list (build_tables (malloc_ok host) p_list 2) false
    CallerArray pre
    (initial_state {| caller_array := argv; private_copy := None |})
  = Continue st ->
  config_LoadCmdLine host p_list argv false
  = Return (-1)
      (print (warn_deprecated false p_conf current)
         (set_mem (store_argv CallerArray (scanned ev) (mem st)) st)).
Proof.
  intros H0 H1 Hscan Hc Hn He Hf Hcur Hs Hpre.
  assert (H2 : false = true -> malloc_ok host 2 = true) by discriminate.
  rewrite (config_LoadCmdLine_allocated host p_list argv false _ _ H0 H1 H2 Hscan).
  unfold parse_loop. rewrite parse_calls_app, Hpre. simpl.
  rewrite (long_deprecated_strict host p_list _ ev _ e entry current p_conf
             Hc Hn He Hf Hcur Hs).
  reflexivity.
Qed.

Lemma strict_deprecated_long_aborts_witness :
  config_LoadCmdLine Sample.host Sample.registry
    ["vlc"; "-f"; "--old-width=3"; "-v"] false
  = Return (-1)
      {| i_verbose := 0;
         puts := [config_PutInt "fullscreen" 1];
         log := [stderr ("Error: option --old-width is deprecated. "
                         ++ "Use --width instead." ++ nl)%string];
         mem := {| caller_array := ["vlc"; "-f"; "--old-width=3"; "-v"];
                   private_copy := None |} |}.
Proof.
  exact (strict_deprecated_long_aborts Sample.host Sample.registry
           ["vlc"; "-f"; "--old-width=3"; "-v"]
           [{| i_cmd := 102; optarg := None; optind := 2; optopt := 63;
               i_index := 12; flag := 0;
               scanned := ["vlc"; "-f"; "--old-width=3"; "-v"] |}]
           [{| i_cmd := 118; optarg := None; optind := 4; optopt := 63;
               i_index := 5; flag := 0;
               scanned := ["vlc"; "-f"; "--old-width=3"; "-v"] |}]
           {| i_cmd := 0; optarg := Some "3"; optind := 3; optopt := 63;
              i_index := 5; flag := 0;
              scanned := ["vlc"; "-f"; "--old-width=3"; "-v"] |}
           ["vlc"; "-f"; "--old-width=3"; "-v"]
           (primary_entry (Sample.item "old-width" "w" CONFIG_ITEM_INTEGER
                                       (Some "width") false))
           "old-width" "width"
           (Sample.item "old-width" "w" CONFIG_ITEM_INTEGER (Some "width") false)
           {| i_verbose := 0; puts := [config_PutInt "fullscreen" 1]; log := [];
              mem := {| caller_array := ["vlc"; "-f"; "--old-width=3"; "-v"];
                        private_copy := None |} |}
           eq_refl eq_refl eq_refl eq_refl eq_refl eq_refl eq_refl eq_refl
           eq_refl eq_refl).
Defined.

Lemma long_switch_strip (host : host_t) (p : module_config_t) (name : string)
    (arg : option string) (fl : Z) (st : parse_state) :
  strip (long_switch host p name arg fl st)
  = strip (long_switch host p name arg fl (strip_log st)).
Proof.
  unfold long_switch. destruct (i_type p); try reflexivity;
    destruct arg; reflexivity.
Qed.

Lemma short_switch_strip (p : module_config_t) (cmd : Z) (arg : option string)
    (st : parse_state) :
  strip (short_switch p cmd arg st) = strip (short_switch p cmd arg (strip_log st)).
Proof.
  unfold short_switch. destruct (i_type p); try reflexivity;
    try (destruct arg; reflexivity).
  destruct (cmd =? code "v"); [reflexivity | destruct arg; reflexivity].
Qed.

(** What an iteration does to the store, the counter and the arrays does
    not depend on what was printed before. *)
Lemma loop_body_strip (host : host_t) (p_list : list module_t) (t : tables)
    (b : bool) (ev : getopt_call) (st : parse_state) :
  strip (loop_body host p_list t b ev st)
  = strip (loop_body host p_list t b ev (strip_log st)).
Proof.
  unfold loop_body.
  assert (Hshort :
    strip match pp_shortopts t (i_cmd ev) with
          | Some p_short => short_switch p_short (i_cmd ev) (optarg ev) st
          | None => if negb b
                    then Return (-1) (print (unknown_option host ev) st)
                    else Continue st
          end
    = strip match pp_shortopts t (i_cmd ev) with
            | Some p_short =>
                short_switch p_short (i_cmd ev) (optarg ev) (strip_log st)
            | None => if negb b
                      then Return (-1) (print (unknown_option host ev) (strip_log st))
                      else Continue (strip_log st)
            end).
  { destruct (pp_shortopts t (i_cmd ev));
      [apply short_switch_strip | destruct b; reflexivity]. }
  destruct (i_cmd ev =? 0); [|exact Hshort].
  unfold long_branch.
  destruct (nth_error (p_longopts t) (i_index ev)) as [[[entry|] ha v]|];
    try reflexivity.
  destruct (config_FindConfig p_list (strip_no entry (flag ev))) as [p_conf|];
    [|exact Hshort].
  destruct (psz_current p_conf) as [current|]; [|apply long_switch_strip].
  destruct (b_strict p_conf); [reflexivity|].
  destruct b; simpl; [|reflexivity].
  destruct (config_FindConfig p_list current); [|reflexivity].
  rewrite long_switch_strip.
  rewrite (long_switch_strip host m current (optarg ev) (flag ev)
             (print (warn_deprecated true p_conf current) (strip_log st))).
  reflexivity.
Qed.

Lemma parse_calls_strip_eq (host : host_t) (p_list : list module_t) (t : tables)
    (b : bool) (ref : argv_ref) (evs : list getopt_call) (st st' : parse_state) :
  strip_log st = strip_log st' ->
  strip (parse_calls host p_list t b ref evs st)
  = strip (parse_calls host p_list t b ref evs st').
Proof.
  revert st st'. induction evs as [|ev r IH]; intros st st' Heq; simpl.
  - now rewrite Heq.
  - set (st1 := set_mem (store_argv ref (scanned ev) (mem st)) st).
    set (st1' := set_mem (store_argv ref (scanned ev) (mem st')) st').
    assert (H1 : strip_log st1 = strip_log st1').
    { unfold st1, st1', strip_log, set_mem in *. simpl.
      injection Heq as Hv Hp Hm. now rewrite Hv, Hp, Hm. }
    pose proof (loop_body_strip host p_list t b ev st1) as Ha.
    pose proof (loop_body_strip host p_list t b ev st1') as Hb.
    rewrite H1, <- Hb in Ha. clear Hb.
    destruct (loop_body host p_list t b ev st1) as [s| |];
      destruct (loop_body host p_list t b ev st1') as [s'| |];
      simpl in Ha; try discriminate Ha; try exact Ha.
    apply IH. unfold strip_log in *. congruence.
Qed.

Lemma parse_loop_strip_eq (host : host_t) (p_list : list module_t) (t : tables)
    (b : bool) (ref : argv_ref) (evs : list getopt_call) (final : list string)
    (st st' : parse_state) :
  strip_log st = strip_log st' ->
  strip (parse_loop host p_list t b ref evs final st)
  = strip (parse_loop host p_list t b ref evs final st').
Proof.
  intros Heq. unfold parse_loop.
  pose proof (parse_calls_strip_eq host p_list t b ref evs st st' Heq) as H.
  destruct (parse_calls host p_list t b ref evs st) as [s| |];
    destruct (parse_calls host p_list t b ref evs st') as [s'| |];
    simpl in H; try discriminate H; try exact H.
  simpl. injection H as Hv Hp Hm. unfold strip_log, set_mem. simpl.
  now rewrite Hv, Hp, Hm.
Qed.

(** X13. On the long path a removed option is inert in both modes: apart
    from the warning in the log, the loop ends exactly as it would without
    that token — same exit, same puts, same verbosity counter, same
    arrays — whatever comes before and after it. *)
Theorem removed_long_option_inert (host : host_t) (p_list : list module_t)
    (t : tables) (b : bool) (ref : argv_ref) (pre post : list getopt_call)
    (ev : getopt_call) (final : list string) (st0 : parse_state)
    (e : struct_option) (entry current : string) (p_conf : module_config_t) :
  i_cmd ev = 0 ->
  nth_error (p_longopts t) (i_index ev) = Some e ->
  o_name e = Some entry ->
  config_FindConfig p_list (strip_no entry (flag ev)) = Some p_conf ->
  psz_current p_conf = Some current ->
  b_strict p_conf = true ->
  strip (parse_loop host p_list t b ref (pre ++ ev :: post) final st0)
  = strip (parse_loop host p_list t b ref (pre ++ post) final st0).
Proof.
  intros Hc Hn He Hf Hcur Hs.
  assert (Htail : forall st,
             strip (parse_loop host p_list t b ref (ev :: post) final st)
             = strip (parse_loop host p_list t b ref post final st)).
  { intros st.
    assert (Hcons :
      parse_loop host p_list t b ref (ev :: post) final st
      = match loop_body host p_list t b ev
                (set_mem (store_argv ref (scanned ev) (mem st)) st) with
        | Continue st2 => parse_loop host p_list t b ref post final st2
        | o => o
        end).
    { unfold parse_loop. cbn [parse_calls].
      destruct (loop_body host p_list t b ev _); reflexivity. }
    rewrite Hcons.
    rewrite (long_removed host p_list t b ev _ e entry current p_conf
               Hc Hn He Hf Hcur Hs).
    rewrite (parse_loop_strip_eq host p_list t b ref post final
               (print (warn_removed p_conf)
                  (set_mem (store_argv ref (scanned ev) (mem st)) st))
               (set_mem (store_argv ref (scanned ev) (mem st)) st) eq_refl).
    now rewrite parse_loop_restore. }
  unfold parse_loop in *. rewrite !parse_calls_app.
  destruct (parse_calls host p_list t b ref pre st0) as [st| |];
    [apply Htail | reflexivity | reflexivity].
Qed.

Lemma removed_long_option_inert_witness :
  strip (parse_loop Sample.host Sample.registry
           (build_tables (fun _ => true) Sample.registry 2) false CallerArray
           ([] ++ {| i_cmd := 0; optarg := Some "x"; optind := 2; optopt := 63;
                     i_index := 7; flag := 0;
                     scanned := ["vlc"; "--gone=x"] |} :: [])
           ["vlc"; "--gone=x"]
           (initial_state {| caller_array := ["vlc"; "--gone=x"];
                             private_copy := None |}))
  = strip (parse_loop Sample.host Sample.registry
             (build_tables (fun _ => true) Sample.registry 2) false CallerArray
             ([] ++ []) ["vlc"; "--gone=x"]
             (initial_state {| caller_array := ["vlc"; "--gone=x"];
                               private_copy := None |})).
Proof.
  apply (removed_long_option_inert Sample.host Sample.registry _ false CallerArray
           [] [] _ _ _
           (primary_entry (Sample.item "gone" "g" CONFIG_ITEM_STRING
                                       (Some "intf") true))
           "gone" "intf"
           (Sample.item "gone" "g" CONFIG_ITEM_STRING (Some "intf") true));
    reflexivity.
Defined.

(* ================================================================== *)
(** ** The build for Mac OS X                                         *)
(* ================================================================== *)

(** X14. In the build with [__APPLE__], an argv whose second element
    begins with [-psn] makes the call return 0 at once with the count
    decremented by one: no table is built, so no allocation can fail, and
    nothing is parsed, put or printed even when options follow; the array
    is left as it was, so the element cut off the count is the last one,
    not the [-psn] one. Any other argv is handled as in the plain build,
    the count unchanged. *)
Theorem apple_psn_returns_at_once (host : host_t) (p_list : list module_t)
    (argv : list string) (b : bool) :
  (forall prog second rest,
      argv = prog :: second :: rest ->
      String.prefix "-psn" second = true ->
      config_LoadCmdLine_apple host p_list argv b
      = (Return 0 {| i_verbose := 0; puts := []; log := [];
                     mem := {| caller_array := argv; private_copy := None |} |},
         S (List.length rest)) /\
      firstn (S (List.length rest)) argv = removelast argv) /\
  ((forall prog second rest,
       argv = prog :: second :: rest -> String.prefix "-psn" second = false) ->
   config_LoadCmdLine_apple host p_list argv b
   = (config_LoadCmdLine host p_list argv b, List.length argv)).
Proof.
  split.
  - intros prog second rest -> Hp. unfold config_LoadCmdLine_apple.
    rewrite Hp. split.
    + simpl. rewrite ?Nat.sub_0_r. reflexivity.
    + clear.
      assert (Hcut : forall (l : list string) a,
                 firstn (List.length l) (a :: l) = removelast (a :: l)).
      { induction l as [|x r IH]; intros a; [reflexivity|].
        cbn [List.length firstn]. rewrite IH. reflexivity. }
      cbn [firstn]. rewrite Hcut. reflexivity.
  - intros H. unfold config_LoadCmdLine_apple.
    destruct argv as [|prog [|second rest]]; try reflexivity.
    now rewrite (H prog second rest eq_refl).
Qed.

Lemma apple_psn_returns_at_once_witness :
  config_LoadCmdLine_apple
    {| malloc_ok := fun _ => false; ConfigStringToKey := fun _ => 0;
       psz_object_name := "vlc" |}
    Sample.registry ["vlc"; "-psn_0_9306113"; "--bogus"; "clip.avi"] false
  = (Return 0 {| i_verbose := 0; puts := []; log := [];
                 mem := {| caller_array :=
                             ["vlc"; "-psn_0_9306113"; "--bogus"; "clip.avi"];
                           private_copy := None |} |},
     3%nat).
Proof.
  apply (proj1 (apple_psn_returns_at_once
                  {| malloc_ok := fun _ => false; ConfigStringToKey := fun _ => 0;
                     psz_object_name := "vlc" |}
                  Sample.registry
                  ["vlc"; "-psn_0_9306113"; "--bogus"; "clip.avi"] false)
           "vlc" "-psn_0_9306113" ["--bogus"; "clip.avi"] eq_refl eq_refl).
Defined.
